(** * CodeX realtime workspace: decoder, directives, file tree, channel

  A shallow embedding of the JavaScript sources

  - [frontend/src/screens/Project.jsx]: [sanitizeJsonString], the
    [project-message] handler, the template creators and the editor's
    [onBlur] handler;
  - the earlier copy of that screen, with the brace-balancing decoder;
  - the socket module: [initializeSocket], [sendMessage], [receiveMessage],
    [disconnect].

  JavaScript strings are sequences of UTF-16 code units, values are the
  JSON-shaped values the code handles, and an operation that can raise
  returns a [completion]. *)

From Stdlib Require Import List String Ascii NArith ZArith Bool Arith Lia.
From Stdlib Require Import DecimalString.
Import ListNotations.

Set Warnings "-register-all".

(* ================================================================== *)
(** * JavaScript strings *)
(* ================================================================== *)

Module JsString.

(** A string is its sequence of UTF-16 code units. *)
Definition code_unit := N.
Definition jsstring := list code_unit.

(** A string literal of the source whose characters are all ASCII. *)
Definition u (s : string) : jsstring :=
  map N_of_ascii (list_ascii_of_string s).

Definition dquote : code_unit := 34%N.
Definition backslash : code_unit := 92%N.
Definition newline : code_unit := 10%N.
Definition slash : code_unit := 47%N.

(** The literal [s] between two double quotes. *)
Definition quoted (s : string) : jsstring := dquote :: u s ++ [dquote].

(** Writing aid for test inputs: the literal with every apostrophe
    standing for a double quote. *)
Definition js (s : string) : jsstring :=
  map (fun c => if N.eqb c 39 then dquote else c) (u s).

Fixpoint str_eqb (a b : jsstring) : bool :=
  match a, b with
  | [], [] => true
  | x :: a', y :: b' => N.eqb x y && str_eqb a' b'
  | _, _ => false
  end.

(** [s.startsWith(p)] *)
Fixpoint startsWith (p s : jsstring) : bool :=
  match p, s with
  | [], _ => true
  | x :: p', y :: s' => N.eqb x y && startsWith p' s'
  | _ :: _, [] => false
  end.

(** [s.includes(sub)] *)
Fixpoint includes (s sub : jsstring) : bool :=
  startsWith sub s ||
  match s with
  | [] => false
  | _ :: s' => includes s' sub
  end.

(** [s.substring(0, n)] *)
Definition substring0 (n : nat) (s : jsstring) : jsstring := firstn n s.

(** [s.split(sep)] for a separator of one code unit: never empty. *)
Fixpoint split (sep : code_unit) (s : jsstring) : list jsstring :=
  match s with
  | [] => [[]]
  | c :: r =>
      if N.eqb c sep then [] :: split sep r
      else match split sep r with
           | p :: ps => (c :: p) :: ps
           | [] => [[c]]
           end
  end.

(** [toLowerCase] on one code unit.  The ASCII letters are mapped; the
    Unicode case tables are outside this model, every other code unit is
    kept. *)
Definition lower_unit (c : code_unit) : code_unit :=
  if (N.leb 65 c && N.leb c 90)%bool then (c + 32)%N else c.

Definition toLowerCase (s : jsstring) : jsstring := map lower_unit s.

(** The class [\s] of a regular expression. *)
Definition is_space (c : code_unit) : bool :=
  (N.leb 9 c && N.leb c 13) || N.eqb c 32 || N.eqb c 160 ||
  N.eqb c 5760 || (N.leb 8192 c && N.leb c 8202) ||
  N.eqb c 8232 || N.eqb c 8233 || N.eqb c 8239 || N.eqb c 8287 ||
  N.eqb c 12288 || N.eqb c 65279.

(** The code units that [.] does not match. *)
Definition is_line_terminator (c : code_unit) : bool :=
  N.eqb c 10 || N.eqb c 13 || N.eqb c 8232 || N.eqb c 8233.

End JsString.
Import JsString.

(* ================================================================== *)
(** * JavaScript values and completions *)
(* ================================================================== *)

Module JsValue.

(** The values that reach the code: what [JSON.parse] builds, plus
    [undefined] and the built-in objects that a property lookup finds
    through [Object.prototype].  A number is kept as its lexeme and stands
    for the double that the lexeme is read as; the code looks at a number
    only for its truthiness. *)
Inductive JSValue : Type :=
| JUndefined
| JNull
| JBool (b : bool)
| JNum (lexeme : jsstring)
| JStr (s : jsstring)
| JArr (items : list JSValue)
| JObj (props : list (jsstring * JSValue))
| JNative (name : jsstring).

(** The own enumerable properties of a plain object in the order of
    their enumeration: the keys that are array indices first, in ascending
    order, then the other keys in insertion order; a key occurs once. *)
Definition obj := list (jsstring * JSValue).

Inductive JSError : Type := SyntaxError | TypeError | RangeError.

Inductive completion (A : Type) : Type :=
| Return (a : A)
| Throw (e : JSError).
Arguments Return {A} a.
Arguments Throw {A} e.

Definition bind {A B} (c : completion A) (k : A -> completion B)
  : completion B :=
  match c with
  | Return a => k a
  | Throw e => Throw e
  end.

(** [try { body } catch (e) { handler }] *)
Definition try_catch {A} (body : completion A)
    (handler : JSError -> completion A) : completion A :=
  match body with
  | Return a => Return a
  | Throw e => handler e
  end.

Definition throws {A} (c : completion A) : Prop :=
  exists e, c = Throw e.

(** ** Own properties *)

Fixpoint get_own (o : obj) (k : jsstring) : option JSValue :=
  match o with
  | [] => None
  | (k', v) :: o' => if str_eqb k' k then Some v else get_own o' k
  end.

(** The value of a decimal numeral, after the digits [acc]; no value for
    a string with another code unit. *)
Fixpoint numeral (acc : N) (s : jsstring) : option N :=
  match s with
  | [] => Some acc
  | c :: r =>
      if N.leb 48 c && N.leb c 57
      then numeral (acc * 10 + (c - 48)) r
      else None
  end.

(** A key that is an array index: the numeral, without a leading zero,
    of an integer below 2^32 - 1. *)
Definition array_index (k : jsstring) : option N :=
  match k with
  | [] => None
  | c :: r =>
      if N.eqb c 48 && negb (match r with [] => true | _ => false end)
      then None
      else
        match numeral 0 k with
        | Some n => if N.ltb n 4294967295 then Some n else None
        | None => None
        end
  end.

(** The value of a key that the object has is replaced where the key is;
    a key that the object has not comes last. *)
Fixpoint replace_own (o : obj) (k : jsstring) (v : JSValue) : obj :=
  match o with
  | [] => [(k, v)]
  | (k', v') :: o' =>
      if str_eqb k' k then (k', v) :: o' else (k', v') :: replace_own o' k v
  end.

(** A new array index goes before the first key that is not a smaller
    array index. *)
Fixpoint insert_index (o : obj) (n : N) (k : jsstring) (v : JSValue) : obj :=
  match o with
  | [] => [(k, v)]
  | (k', v') :: o' =>
      match array_index k' with
      | Some n' =>
          if N.ltb n' n then (k', v') :: insert_index o' n k v
          else (k, v) :: o
      | None => (k, v) :: o
      end
  end.

(** [o[k] = v] on a fresh copy: an existing key keeps its place, a new
    array index goes among the array indices, in ascending order, and any
    other new key comes last. *)
Definition set_own (o : obj) (k : jsstring) (v : JSValue) : obj :=
  match get_own o k, array_index k with
  | None, Some n => insert_index o n k v
  | _, _ => replace_own o k v
  end.

(** The property names every plain object inherits. *)
Definition object_prototype_names : list jsstring :=
  map u [ "constructor"; "__proto__"; "hasOwnProperty"; "isPrototypeOf";
          "propertyIsEnumerable"; "toLocaleString"; "toString"; "valueOf";
          "__defineGetter__"; "__defineSetter__"; "__lookupGetter__";
          "__lookupSetter__" ]%string.

Definition inherited (k : jsstring) : bool :=
  existsb (str_eqb k) object_prototype_names.

(** [o[k]] on a plain object. *)
Definition get (o : obj) (k : jsstring) : JSValue :=
  match get_own o k with
  | Some v => v
  | None => if inherited k then JNative k else JUndefined
  end.

(** [v.name] for one of the names the code reads ([text], [fileTree],
    [file], [directory], [contents]); none of them is inherited from a
    built-in prototype.  Reading a property of [undefined] or [null]
    raises a [TypeError]. *)
Definition member (v : JSValue) (name : jsstring) : completion JSValue :=
  match v with
  | JUndefined | JNull => Throw TypeError
  | JObj o =>
      match get_own o name with
      | Some x => Return x
      | None => Return JUndefined
      end
  | _ => Return JUndefined
  end.

(** [v?.name] *)
Definition opt_member (v : JSValue) (name : jsstring) : JSValue :=
  match member v name with
  | Return x => x
  | Throw _ => JUndefined
  end.

(** The property name of an array index: its decimal numeral. *)
Definition index_key (n : nat) : jsstring :=
  u (NilEmpty.string_of_uint (Nat.to_uint n)).

Fixpoint indexed {A} (f : A -> JSValue) (i : nat) (l : list A) : obj :=
  match l with
  | [] => []
  | x :: l' => (index_key i, f x) :: indexed f (S i) l'
  end.

(** The properties that [{...v}] copies. *)
Definition spread (v : JSValue) : obj :=
  match v with
  | JObj o => o
  | JArr items => indexed (fun x => x) 0 items
  | JStr s => indexed (fun c => JStr [c]) 0 s
  | _ => []
  end.

(** ** Numbers

    The lexeme of a number is a sign, digits, a point and more digits, and
    an exponent, each but the first digits optional.  [scan_mantissa]
    reads up to the exponent: the digits as one integer, the count of the
    digits after the point, and what follows the letter of the exponent. *)
Fixpoint scan_mantissa (l : jsstring) (m : N) (d : Z) (point : bool)
  : N * Z * jsstring :=
  match l with
  | [] => (m, d, [])
  | c :: r =>
      if N.leb 48 c && N.leb c 57
      then scan_mantissa r (m * 10 + (c - 48))
                         (if point then (d + 1)%Z else d) point
      else if N.eqb c 46 then scan_mantissa r m d true
      else if N.eqb c 101 || N.eqb c 69 then (m, d, r)
      else scan_mantissa r m d point
  end.

(** The exponent: a sign and digits, 0 when there is none. *)
Definition exponent (l : jsstring) : Z :=
  let value r :=
    match numeral 0 r with Some n => Z.of_N n | None => 0%Z end in
  match l with
  | [] => 0%Z
  | c :: r =>
      if N.eqb c 45 then (- value r)%Z
      else if N.eqb c 43 then value r
      else value l
  end.

(** The lexeme is read as zero, of either sign.  Its value is
    [m * 10 ^ (x - d)] for the digits [m], [d] of them after the point,
    and the exponent [x]; the double for it is the nearest one, ties to
    even, which is zero exactly when the value is at most [2 ^ -1075], half
    of the least positive double. *)
Definition reads_as_zero (l : jsstring) : bool :=
  let '(m, d, rest) := scan_mantissa l 0 0%Z false in
  let e := (exponent rest - d)%Z in
  if Z.leb 0 e then N.eqb m 0
  else N.leb (m * 2 ^ 1075) (10 ^ Z.to_N (- e)).

(** Truthiness, [!!v]. *)
Definition truthy (v : JSValue) : bool :=
  match v with
  | JUndefined | JNull => false
  | JBool b => b
  | JNum l => negb (reads_as_zero l)
  | JStr s => negb (str_eqb s [])
  | _ => true
  end.

(** [typeof v === 'object'] *)
Definition typeof_object (v : JSValue) : bool :=
  match v with
  | JNull | JArr _ | JObj _ => true
  | _ => false
  end.

End JsValue.
Import JsValue.

(* ================================================================== *)
(** * Regular expressions *)
(* ================================================================== *)

(** The backtracking matcher of the host for the constructs that the
    source uses: classes of one code unit, sequence, alternation in the
    order written, greedy and lazy stars, capturing groups and the end of
    the input.  A matcher takes the rest of the input, the captures so far
    and the continuation that matches what follows; the first success in
    the order of the attempts is the result. *)
Module Regex.

Inductive regex : Type :=
| Unit (p : code_unit -> bool)
| Empty
| Seq (a b : regex)
| Alt (a b : regex)
| Star (greedy : bool) (a : regex)
| Group (i : nat) (a : regex)
| EndOfInput.

(** The text of the groups that have matched, the latest first. *)
Definition captures : Type := list (nat * jsstring).

(** A result: the input after the match, and the captures. *)
Definition result : Type := option (jsstring * captures).

Definition cont : Type := jsstring -> captures -> result.
Definition matcher : Type := jsstring -> captures -> cont -> result.

Definition or_else (x y : result) : result :=
  match x with
  | Some _ => x
  | None => y
  end.

(** The star: a greedy one tries one more iteration before what follows,
    a lazy one tries what follows first.  An iteration that matches
    nothing is not taken, so at most one iteration for each code unit of
    the input is ever started. *)
Fixpoint star_iter (greedy : bool) (body : matcher) (n : nat)
    (s : jsstring) (c : captures) (k : cont) : result :=
  match n with
  | O => k s c
  | S n' =>
      let again :=
        body s c (fun s' c' =>
          if List.length s' <? List.length s
          then star_iter greedy body n' s' c' k
          else None) in
      if greedy then or_else again (k s c) else or_else (k s c) again
  end.

Fixpoint run (r : regex) : matcher :=
  match r with
  | Unit p => fun s c k =>
      match s with
      | x :: s' => if p x then k s' c else None
      | [] => None
      end
  | Empty => fun s c k => k s c
  | Seq a b => fun s c k => run a s c (fun s' c' => run b s' c' k)
  | Alt a b => fun s c k => or_else (run a s c k) (run b s c k)
  | Star g a => fun s c k => star_iter g (run a) (S (List.length s)) s c k
  | Group i a => fun s c k =>
      run a s c (fun s' c' =>
        k s' ((i, firstn (List.length s - List.length s') s) :: c'))
  | EndOfInput => fun s c k =>
      match s with
      | [] => k s c
      | _ :: _ => None
      end
  end.

(** A match that starts at the head of [s]. *)
Definition match_here (r : regex) (s : jsstring) : result :=
  run r s [] (fun s' c => Some (s', c)).

(** The leftmost match, as [exec] finds it. *)
Fixpoint exec (r : regex) (s : jsstring) : result :=
  match match_here r s with
  | Some res => Some res
  | None =>
      match s with
      | [] => None
      | _ :: s' => exec r s'
      end
  end.

(** The text of group [i]; the empty string when it took no part. *)
Fixpoint group (i : nat) (c : captures) : jsstring :=
  match c with
  | [] => []
  | (j, t) :: c' => if Nat.eqb i j then t else group i c'
  end.

(** [s.match(r)[i]] for an expression without the flag [g]; [None] for
    [null]. *)
Definition match_group (r : regex) (i : nat) (s : jsstring)
  : option jsstring :=
  match exec r s with
  | Some (_, c) => Some (group i c)
  | None => None
  end.

(** A replacement text: literal parts and references to groups. *)
Inductive piece : Type := Lit (t : jsstring) | Ref (i : nat).

Definition expand (template : list piece) (c : captures) : jsstring :=
  flat_map (fun p => match p with Lit t => t | Ref i => group i c end)
           template.

(** [s.replace(r, template)] with the flag [g]: the matches are looked for
    from left to right, each search starting where the last match ended,
    one code unit further after an empty match.  [skip] counts the code
    units of the last match that are still to pass. *)
Fixpoint replace_from (r : regex) (template : list piece) (skip : nat)
    (s : jsstring) : jsstring :=
  match s with
  | [] =>
      match skip, match_here r [] with
      | O, Some (_, c) => expand template c
      | _, _ => []
      end
  | x :: s' =>
      match skip with
      | S n => replace_from r template n s'
      | O =>
          match match_here r s with
          | Some (rest, c) =>
              expand template c ++
              match List.length s - List.length rest with
              | O => x :: replace_from r template 0 s'
              | S n => replace_from r template n s'
              end
          | None => x :: replace_from r template 0 s'
          end
      end
  end.

Definition replace_all (r : regex) (template : list piece) (s : jsstring)
  : jsstring :=
  replace_from r template 0 s.

(** ** Building blocks *)

(** The characters of [p], one after the other. *)
Fixpoint lit (p : jsstring) : regex :=
  match p with
  | [] => Empty
  | x :: p' => Seq (Unit (N.eqb x)) (lit p')
  end.

Definition unit_of (x : code_unit) : regex := Unit (N.eqb x).

(** A class given by its members, and its complement. *)
Definition one_of (l : list code_unit) : regex :=
  Unit (fun c => existsb (N.eqb c) l).

Definition none_of (l : list code_unit) : regex :=
  Unit (fun c => negb (existsb (N.eqb c) l)).

(** [\s*], [.] and [[\s\S]]. *)
Definition spaces : regex := Star true (Unit is_space).
Definition dot : regex := Unit (fun c => negb (is_line_terminator c)).
Definition any : regex := Unit (fun _ => true).

(** [a+] *)
Definition plus (a : regex) : regex := Seq a (Star true a).

Fixpoint seq (l : list regex) : regex :=
  match l with
  | [] => Empty
  | [a] => a
  | a :: l' => Seq a (seq l')
  end.

End Regex.

(* ================================================================== *)
(** * The resilient decoder: [sanitizeJsonString] of Project.jsx *)
(* ================================================================== *)

Module Decoder.

(** ** The field pattern

    Written with Q for the double quote, the expression is
    [/QtextQ\s*:\s*Q((?:[^Q\\]|\\.|[\s\S])*?)(?:Q[,}]|$)/]. *)

(** One iteration of the lazy group: [[^Q\\]|\\.|[\s\S]]. *)
Definition body_step : Regex.regex :=
  Regex.Alt (Regex.none_of [dquote; backslash])
    (Regex.Alt (Regex.Seq (Regex.unit_of backslash) Regex.dot) Regex.any).

(** What ends the match: [Q[,}]|$]. *)
Definition closing : Regex.regex :=
  Regex.Alt (Regex.Seq (Regex.unit_of dquote) (Regex.one_of [44%N; 125%N]))
    Regex.EndOfInput.

Definition text_pattern : Regex.regex :=
  Regex.seq
    [ Regex.lit (quoted "text"); Regex.spaces; Regex.unit_of 58%N;
      Regex.spaces; Regex.unit_of dquote;
      Regex.Group 1 (Regex.Star false body_step);
      closing ].

(** [jsonString.match(...)]: the capture group 1 of the leftmost match,
    [None] when [match] returns [null]. *)
Definition match_text (s : jsstring) : option jsstring :=
  Regex.match_group text_pattern 1 s.

(** [x.replace(/\\Q/g, Q).replace(/\\n/g, '\n')]: an escaped quote
    becomes a quote, then an escaped [n] becomes a line feed. *)
Definition escaped (x : code_unit) : Regex.regex :=
  Regex.Seq (Regex.unit_of backslash) (Regex.unit_of x).

Definition unescape (x : jsstring) : jsstring :=
  Regex.replace_all (escaped 110%N) [Regex.Lit [newline]]
    (Regex.replace_all (escaped dquote) [Regex.Lit [dquote]] x).

(** ** The objects the decoder builds *)

Definition text_object (t : jsstring) : JSValue :=
  JObj [(u "text", JStr t)].

Definition flagged_object (t : jsstring) : JSValue :=
  JObj [(u "text", JStr t); (u "fileTree", JBool true)].

Definition react_notice : jsstring :=
  u "Creating React application files. Check the file explorer panel.".

Definition fence : jsstring := u "```".

Definition structure_notice : jsstring :=
  fence ++ [newline] ++
  u "File structure created. Check the file explorer panel." ++
  [newline] ++ fence.

(** The text of the last tier: [AI response (JSON parsing failed):], two
    line feeds, and a fenced block that holds the excerpt.  The excerpt is
    the input, cut after 300 code units and followed by three dots when it
    is longer. *)
Definition excerpt (s : jsstring) : jsstring :=
  if 300 <? List.length s then substring0 300 s ++ u "..." else s.

Definition fallback_text (s : jsstring) : jsstring :=
  u "AI response (JSON parsing failed):" ++ [newline; newline] ++
  fence ++ [newline] ++ excerpt s ++ [newline] ++ fence.

(** ** The decoder *)

(** The test of the first tier: the quoted marker of a file tree together
    with one of the two words of a React scaffold. *)
Definition template_marker (jsonString : jsstring) : bool :=
  includes jsonString (quoted "fileTree") &&
  (includes jsonString (u "react") || includes jsonString (u "package.json")).

Section WithParser.

(** [JSON.parse], which raises on a malformed text. *)
Variable parse : jsstring -> completion JSValue.

(** The recovery of the inner [catch]: field extraction, then the
    tree-presence notice, then the bounded excerpt.  The logging of the
    error position does not change the result. *)
Definition recover (jsonString : jsstring) : completion JSValue :=
  match match_text jsonString with
  | Some (c :: body) =>
      Return (text_object (unescape (c :: body)))
  | _ =>
      if includes jsonString (quoted "fileTree")
      then Return (flagged_object structure_notice)
      else Return (text_object (fallback_text jsonString))
  end.

Definition sanitizeJsonString_with (jsonString : JSValue)
  : completion JSValue :=
  try_catch
    match jsonString with
    | JStr s =>
        if template_marker s
        then Return (flagged_object react_notice)
        else try_catch (parse s) (fun firstError => recover s)
    | v => Return v
    end
    (fun finalError =>
       Return (text_object (u "Error displaying message content"))).

End WithParser.

(** ** Payloads *)

(** A code unit that is neither a quote nor a backslash. *)
Definition plain_unit (c : code_unit) : bool :=
  negb (N.eqb c dquote || N.eqb c backslash).

(** The opening of an object whose first member is [text], up to the
    quote that opens its value: a payload cut inside its text is this
    opening followed by plain code units. *)
Definition text_opening : jsstring := js "{'text':'".

Definition truncated_payload : jsstring := js "{'text':'partial...".

(** A well-formed payload with a text and a tree of one file. *)
Definition scaffold_payload : jsstring :=
  js "{'text':'Here is your app','fileTree':{'package.json':{'file':{'contents':'{}'}}}}".

End Decoder.

(* ================================================================== *)
(** * [JSON.parse] *)
(* ================================================================== *)

(** The host's [JSON.parse] on a string, as a pushdown automaton that reads
    the text one code unit at a time: the JSON grammar of ECMA-404, with
    the four JSON white-space characters, the escapes of string literals,
    and the last of several members with one key winning.  The members
    of an object are set one by one with [set_own], so that they come in
    the order of enumeration, array indices first.  A number is returned
    as its lexeme, which stands for the double it is read as. *)
Module Json.

Inductive Frame : Type :=
| FArr (items : list JSValue)
| FObj (members : obj) (key : option jsstring).

Inductive StrState : Type :=
| SChars
| SEscape
| SHex (digits : list N).

Inductive NumState : Type :=
| NMinus | NZero | NInt | NDot | NFrac | NExp | NExpSign | NExpDigits.

Inductive Mode : Type :=
| MValue
| MArrStart
| MObjStart
| MObjKey
| MColon
| MString (is_key : bool) (acc : jsstring) (st : StrState)
| MNumber (acc : jsstring) (st : NumState)
| MLiteral (rest : jsstring) (v : JSValue)
| MNext
| MDone (v : JSValue)
| MError.

Definition PState : Type := Mode * list Frame.

Definition is_ws (c : code_unit) : bool :=
  N.eqb c 9 || N.eqb c 10 || N.eqb c 13 || N.eqb c 32.

Definition is_digit (c : code_unit) : bool := N.leb 48 c && N.leb c 57.

Definition hex_value (c : code_unit) : option N :=
  if is_digit c then Some (c - 48)%N
  else if N.leb 97 c && N.leb c 102 then Some (c - 87)%N
  else if N.leb 65 c && N.leb c 70 then Some (c - 55)%N
  else None.

(** A value is complete: it goes into the enclosing array or member. *)
Definition complete (v : JSValue) (stk : list Frame) : PState :=
  match stk with
  | [] => (MDone v, [])
  | FArr items :: k => (MNext, FArr (v :: items) :: k)
  | FObj members (Some key) :: k =>
      (MNext, FObj (set_own members key v) None :: k)
  | FObj _ None :: _ => (MError, stk)
  end.

(** The first code unit of a value. *)
Definition start_value (c : code_unit) (stk : list Frame) : PState :=
  if N.eqb c dquote then (MString false [] SChars, stk)
  else if N.eqb c 123 then (MObjStart, FObj [] None :: stk)
  else if N.eqb c 91 then (MArrStart, FArr [] :: stk)
  else if N.eqb c 116 then (MLiteral (u "rue") (JBool true), stk)
  else if N.eqb c 102 then (MLiteral (u "alse") (JBool false), stk)
  else if N.eqb c 110 then (MLiteral (u "ull") JNull, stk)
  else if N.eqb c 45 then (MNumber [c] NMinus, stk)
  else if N.eqb c 48 then (MNumber [c] NZero, stk)
  else if is_digit c then (MNumber [c] NInt, stk)
  else (MError, stk).

(** A code unit after a complete value. *)
Definition after_value (st : PState) (c : code_unit) : PState :=
  let (m, stk) := st in
  if is_ws c then st
  else
    match m, stk with
    | MNext, FArr items :: k =>
        if N.eqb c 44 then (MValue, stk)
        else if N.eqb c 93 then complete (JArr (rev items)) k
        else (MError, stk)
    | MNext, FObj members None :: k =>
        if N.eqb c 44 then (MObjKey, stk)
        else if N.eqb c 125 then complete (JObj members) k
        else (MError, stk)
    | _, _ => (MError, stk)
    end.

Definition end_string (is_key : bool) (s : jsstring) (stk : list Frame)
  : PState :=
  if is_key then
    match stk with
    | FObj members None :: k => (MColon, FObj members (Some s) :: k)
    | _ => (MError, stk)
    end
  else complete (JStr s) stk.

Definition step_string (is_key : bool) (acc : jsstring) (st : StrState)
    (stk : list Frame) (c : code_unit) : PState :=
  match st with
  | SChars =>
      if N.eqb c dquote then end_string is_key (rev acc) stk
      else if N.eqb c backslash then (MString is_key acc SEscape, stk)
      else if N.ltb c 32 then (MError, stk)
      else (MString is_key (c :: acc) SChars, stk)
  | SEscape =>
      let push x := (MString is_key (x :: acc) SChars, stk) in
      if N.eqb c dquote then push dquote
      else if N.eqb c backslash then push backslash
      else if N.eqb c 47 then push 47%N
      else if N.eqb c 98 then push 8%N
      else if N.eqb c 102 then push 12%N
      else if N.eqb c 110 then push 10%N
      else if N.eqb c 114 then push 13%N
      else if N.eqb c 116 then push 9%N
      else if N.eqb c 117 then (MString is_key acc (SHex []), stk)
      else (MError, stk)
  | SHex ds =>
      match hex_value c with
      | Some d =>
          match ds with
          | [d3; d2; d1] =>
              (MString is_key
                 ((d1 * 4096 + d2 * 256 + d3 * 16 + d)%N :: acc) SChars, stk)
          | _ => (MString is_key acc (SHex (d :: ds)), stk)
          end
      | None => (MError, stk)
      end
  end.

Definition is_exp (c : code_unit) : bool := N.eqb c 101 || N.eqb c 69.

(** The number grammar: the next state on a code unit that continues the
    lexeme. *)
Definition num_next (st : NumState) (c : code_unit) : option NumState :=
  match st with
  | NMinus =>
      if N.eqb c 48 then Some NZero
      else if is_digit c then Some NInt else None
  | NZero =>
      if N.eqb c 46 then Some NDot
      else if is_exp c then Some NExp else None
  | NInt =>
      if is_digit c then Some NInt
      else if N.eqb c 46 then Some NDot
      else if is_exp c then Some NExp else None
  | NDot => if is_digit c then Some NFrac else None
  | NFrac =>
      if is_digit c then Some NFrac
      else if is_exp c then Some NExp else None
  | NExp =>
      if N.eqb c 43 || N.eqb c 45 then Some NExpSign
      else if is_digit c then Some NExpDigits else None
  | NExpSign => if is_digit c then Some NExpDigits else None
  | NExpDigits => if is_digit c then Some NExpDigits else None
  end.

Definition num_final (st : NumState) : bool :=
  match st with
  | NZero | NInt | NFrac | NExpDigits => true
  | _ => false
  end.

Definition step (st : PState) (c : code_unit) : PState :=
  let (m, stk) := st in
  match m with
  | MValue => if is_ws c then st else start_value c stk
  | MArrStart =>
      if is_ws c then st
      else if N.eqb c 93 then
        match stk with
        | FArr _ :: k => complete (JArr []) k
        | _ => (MError, stk)
        end
      else start_value c stk
  | MObjStart =>
      if is_ws c then st
      else if N.eqb c 125 then
        match stk with
        | FObj _ _ :: k => complete (JObj []) k
        | _ => (MError, stk)
        end
      else if N.eqb c dquote then (MString true [] SChars, stk)
      else (MError, stk)
  | MObjKey =>
      if is_ws c then st
      else if N.eqb c dquote then (MString true [] SChars, stk)
      else (MError, stk)
  | MColon =>
      if is_ws c then st
      else if N.eqb c 58 then (MValue, stk)
      else (MError, stk)
  | MString is_key acc s => step_string is_key acc s stk c
  | MNumber acc s =>
      match num_next s c with
      | Some s' => (MNumber (c :: acc) s', stk)
      | None =>
          if num_final s
          then after_value (complete (JNum (rev acc)) stk) c
          else (MError, stk)
      end
  | MLiteral rest v =>
      match rest with
      | x :: rest' =>
          if N.eqb c x then
            match rest' with
            | [] => complete v stk
            | _ => (MLiteral rest' v, stk)
            end
          else (MError, stk)
      | [] => (MError, stk)
      end
  | MNext | MDone _ => after_value st c
  | MError => st
  end.

(** The end of the text. *)
Definition finish (st : PState) : completion JSValue :=
  match st with
  | (MDone v, _) => Return v
  | (MNumber acc s, []) =>
      if num_final s then Return (JNum (rev acc)) else Throw SyntaxError
  | _ => Throw SyntaxError
  end.

Definition JSON_parse (text : jsstring) : completion JSValue :=
  finish (fold_left step text (MValue, [])).

(** The parser is inside a string literal, between two of its characters,
    or has stopped on an error. *)
Definition in_string_or_error (st : PState) : Prop :=
  match st with
  | (MString _ _ SChars, _) => True
  | (MError, _) => True
  | _ => False
  end.

End Json.

(** The decoder with the host's parser. *)
Definition sanitizeJsonString : JSValue -> completion JSValue :=
  Decoder.sanitizeJsonString_with Json.JSON_parse.

(** ** The decoded content of the specification

    The decoder returns plain objects.  A value stands for a variant of the
    specification's union by its [text] and [fileTree] properties; the
    excerpt object of the last tier stands for [Unparseable]. *)

Inductive DecodedContent : Type :=
| Text (body : jsstring)
| TextWithTree (body : jsstring) (tree : obj)
| TreePresenceFlag (body : jsstring)
| Unparseable (rawExcerpt : jsstring).

Inductive represents : JSValue -> DecodedContent -> Prop :=
| rep_text o b :
    get_own o (u "text") = Some (JStr b) ->
    get_own o (u "fileTree") = None ->
    represents (JObj o) (Text b)
| rep_tree o b t :
    get_own o (u "text") = Some (JStr b) ->
    get_own o (u "fileTree") = Some (JObj t) ->
    represents (JObj o) (TextWithTree b t)
| rep_flag o b :
    get_own o (u "text") = Some (JStr b) ->
    get_own o (u "fileTree") = Some (JBool true) ->
    represents (JObj o) (TreePresenceFlag b)
| rep_unparseable s :
    represents (Decoder.text_object (Decoder.fallback_text s))
               (Unparseable (Decoder.excerpt s)).

(* ================================================================== *)
(** * The earlier decoder: brace balancing, then field extraction *)
(* ================================================================== *)

Module LegacyDecoder.

(** The five expressions of the repair, with Q for the double quote:
    [/([^\\])(\\)([^\\/Qbfnrtu])/g], [/([^\\])\\n/g], [/([^\\])\\t/g],
    the expression for names without quotes, which is an opening brace or
    a comma with spaces in group 1, one or more of [[a-zA-Z0-9_$]] in
    group 2 and spaces with a colon in group 3, and [/,(\s*[}\]])/g]. *)
Definition lone_backslash : Regex.regex :=
  Regex.seq
    [ Regex.Group 1 (Regex.none_of [backslash]);
      Regex.Group 2 (Regex.unit_of backslash);
      Regex.Group 3
        (Regex.none_of
           [backslash; 47; dquote; 98; 102; 110; 114; 116; 117]%N) ].

Definition escaped_letter (x : code_unit) : Regex.regex :=
  Regex.seq
    [ Regex.Group 1 (Regex.none_of [backslash]);
      Regex.unit_of backslash; Regex.unit_of x ].

(** The class [[a-zA-Z0-9_$]]. *)
Definition is_name_unit (c : code_unit) : bool :=
  (N.leb 97 c && N.leb c 122) || (N.leb 65 c && N.leb c 90) ||
  (N.leb 48 c && N.leb c 57) || N.eqb c 95 || N.eqb c 36.

Definition unquoted_name : Regex.regex :=
  Regex.seq
    [ Regex.Group 1 (Regex.Seq (Regex.one_of [123; 44]%N) Regex.spaces);
      Regex.Group 2 (Regex.plus (Regex.Unit is_name_unit));
      Regex.Group 3 (Regex.Seq Regex.spaces (Regex.unit_of 58%N)) ].

Definition trailing_comma : Regex.regex :=
  Regex.Seq (Regex.unit_of 44%N)
    (Regex.Group 1 (Regex.Seq Regex.spaces (Regex.one_of [125; 93]%N))).

(** The five replacements, in the order of the source. *)
Definition sanitize_text (jsonString : jsstring) : jsstring :=
  let two := [backslash; backslash] in
  let s1 :=
    Regex.replace_all lone_backslash
      [Regex.Ref 1; Regex.Lit two; Regex.Ref 3] jsonString in
  let s2 :=
    Regex.replace_all (escaped_letter 110%N)
      [Regex.Ref 1; Regex.Lit (two ++ [110%N])] s1 in
  let s3 :=
    Regex.replace_all (escaped_letter 116%N)
      [Regex.Ref 1; Regex.Lit (two ++ [116%N])] s2 in
  let s4 :=
    Regex.replace_all unquoted_name
      [Regex.Ref 1; Regex.Lit [dquote]; Regex.Ref 2; Regex.Lit [dquote];
       Regex.Ref 3] s3 in
  Regex.replace_all trailing_comma [Regex.Ref 1] s4.

(** The counting loop: opening minus closing braces, and brackets. *)
Definition count_units (opening closing : code_unit) (s : jsstring) : Z :=
  fold_left
    (fun n c =>
       let n1 := if N.eqb c opening then (n + 1)%Z else n in
       if N.eqb c closing then (n1 - 1)%Z else n1)
    s 0%Z.

(** The two [while] loops that append the missing closers. *)
Definition balance (sanitized : jsstring) : jsstring :=
  sanitized
    ++ repeat 125%N (Z.to_nat (count_units 123%N 125%N sanitized))
    ++ repeat 93%N (Z.to_nat (count_units 91%N 93%N sanitized)).

(** The field pattern of this version, with Q for the double quote: the
    head [QtextQ\s*:\s*Q], then group 1, the greedy star of
    [(?:[^Q\\]|\\.)], then the closing [Q]. *)
Definition text_pattern : Regex.regex :=
  Regex.seq
    [ Regex.lit (quoted "text"); Regex.spaces; Regex.unit_of 58%N;
      Regex.spaces; Regex.unit_of dquote;
      Regex.Group 1
        (Regex.Star true
           (Regex.Alt (Regex.none_of [dquote; backslash])
              (Regex.Seq (Regex.unit_of backslash) Regex.dot)));
      Regex.unit_of dquote ].

Definition match_text (s : jsstring) : option jsstring :=
  Regex.match_group text_pattern 1 s.

Definition parse_failure_text : jsstring :=
  u "Error: Could not parse AI response. Please try again with a simpler request.".

Section WithParser.

Variable parse : jsstring -> completion JSValue.

Definition last_resort (jsonString : jsstring) : completion JSValue :=
  try_catch
    match match_text jsonString with
    | Some (c :: body) =>
        Return (Decoder.text_object
                  (Regex.replace_all (Decoder.escaped dquote)
                     [Regex.Lit [dquote]] (c :: body)))
    | _ => Return (Decoder.text_object parse_failure_text)
    end
    (fun e => Return (Decoder.text_object (u "Error processing AI response"))).

Definition sanitizeJsonString_with (jsonString : JSValue)
  : completion JSValue :=
  match jsonString with
  | JStr s =>
      try_catch (parse s) (fun error =>
        try_catch (parse (balance (sanitize_text s))) (fun secondError =>
          last_resort s))
  | v => Return v
  end.

End WithParser.

Definition sanitizeJsonString : JSValue -> completion JSValue :=
  sanitizeJsonString_with Json.JSON_parse.

End LegacyDecoder.

(* ================================================================== *)
(** * The file tree and the editor's [onBlur] handler *)
(* ================================================================== *)

Module FileTree.

(** [{ file: { contents: c } }] *)
Definition file_node (contents : jsstring) : JSValue :=
  JObj [(u "file", JObj [(u "contents", JStr contents)])].

(** [{ directory: entries }] *)
Definition directory_node (entries : obj) : JSValue :=
  JObj [(u "directory", JObj entries)].

(** An element of the array that a destructuring pattern reads; a missing
    one is [undefined], which as a property key is the name below. *)
Definition segment (i : nat) (parts : list jsstring) : jsstring :=
  nth i parts (u "undefined").

(** The object [ft] that the handler builds from the tree in the state,
    the path of the open file and the edited text.

    A path with a slash is split, and its first two segments name the
    directory and the file:
    [{...fileTree, [dir]: {...fileTree[dir], directory:
       {...fileTree[dir].directory, [file]: {file: {contents}}}}}].
    Reading [fileTree[dir].directory] raises when [fileTree[dir]] is
    [undefined] or [null].  A path without a slash names a root entry:
    [{...fileTree, [currentFile]: {file: {contents}}}]. *)
Definition edited_tree (fileTree : obj) (currentFile updatedContent : jsstring)
  : completion obj :=
  if includes currentFile (u "/") then
    let parts := split slash currentFile in
    let dir := segment 0 parts in
    let file := segment 1 parts in
    let node := get fileTree dir in
    bind (member node (u "directory")) (fun entries =>
      Return
        (set_own fileTree dir
           (JObj (set_own (spread node) (u "directory")
                    (JObj (set_own (spread entries) file
                             (file_node updatedContent)))))))
  else
    Return (set_own fileTree currentFile (file_node updatedContent)).

(** The editor's state: the tree of [useState], the project identifier,
    and the trees sent to the persistence endpoint by [saveFileTree]. *)
Record Editor : Type := {
  fileTree : obj;
  project_id : option jsstring;
  saved : list obj
}.

Definition setFileTree (ft : obj) (st : Editor) : Editor :=
  {| fileTree := ft; project_id := project_id st; saved := saved st |}.

(** [saveFileTree(ft)]: nothing is sent without a project identifier. *)
Definition saveFileTree (ft : obj) (st : Editor) : Editor :=
  match project_id st with
  | Some _ =>
      {| fileTree := fileTree st; project_id := project_id st;
         saved := saved st ++ [ft] |}
  | None => st
  end.

(** The [onBlur] handler: the state after it, and how it completed.  An
    exception leaves the handler before [setFileTree] is reached. *)
Definition onBlur (st : Editor) (currentFile updatedContent : jsstring)
  : Editor * completion unit :=
  match edited_tree (fileTree st) currentFile updatedContent with
  | Return ft => (saveFileTree ft (setFileTree ft st), Return tt)
  | Throw e => (st, Throw e)
  end.

(** A small project: a root file and a directory of two files. *)
Definition sample_editor : Editor :=
  {| fileTree :=
       [ (u "package.json", file_node (u "{}"));
         (u "src",
          directory_node
            [ (u "index.js", file_node (u "import App"));
              (u "App.js", file_node (u "old body")) ]) ];
     project_id := Some (u "p1");
     saved := [] |}.

End FileTree.

(* ================================================================== *)
(** * Directives, the message handler and the sandbox mirror *)
(* ================================================================== *)

Module Workspace.

Inductive Directive : Type := ReactScaffold | ExpressScaffold.

(** The direct commands, looked for in the lower-cased message; the React
    command is tested first. *)
Definition direct_command (lowerMsg : jsstring) : option Directive :=
  if includes lowerMsg (u "@ai create react app") then Some ReactScaffold
  else if includes lowerMsg (u "@ai create express server") ||
          includes lowerMsg (u "@ai create an express server")
  then Some ExpressScaffold
  else None.

(** [v === 'ai'] *)
Definition is_ai (v : JSValue) : bool :=
  match v with
  | JStr s => str_eqb s (u "ai")
  | _ => false
  end.

(** The directive that the handler acts on for a message: only a string
    message whose sender is not the assistant is looked at. *)
Definition recognize (sender_id message : JSValue) : option Directive :=
  match message with
  | JStr m =>
      if negb (is_ai sender_id) then direct_command (toLowerCase m) else None
  | _ => None
  end.

(** A tree of the workspace: one of the two template literals of the
    source, kept by name, or a value that came with a message. *)
Inductive Tree : Type :=
| Template (d : Directive)
| Given (v : JSValue).

Inductive Origin : Type := FromTemplate (d : Directive) | FromMessage.

(** An entry of the timeline: a wire event as received, or one of the
    messages that the screen writes itself. *)
Inductive Entry : Type :=
| Wire (sender_id message : JSValue)
| Working (d : Directive)
| Created (d : Directive)
| Failed (d : Directive).

(** A [mount] call whose promise has not settled. *)
Record Pending : Type := {
  p_tree : Tree;
  p_origin : Origin
}.

(** The state that the handler of [project-message] works on: the tree
    and the timeline of [useState], the [mount] calls that the sandbox has
    received, in order, the calls whose promise is pending, and
    [webContainer]: whether the handler sees a started sandbox.  The
    handler, and the [createReactApp] and [createExpressApp] that it calls,
    are closures of the render whose effect created the handler; what they
    see is the [webContainer] of that render, not the one that
    [setWebContainer] sets afterwards (see [Container]). *)
Record State : Type := {
  fileTree : Tree;
  messages : list Entry;
  webContainer : bool;
  mounted : list Tree;
  pending : list Pending
}.

Definition setMessages (e : Entry) (st : State) : State :=
  {| fileTree := fileTree st; messages := messages st ++ [e];
     webContainer := webContainer st; mounted := mounted st;
     pending := pending st |}.

Definition setFileTree (t : Tree) (st : State) : State :=
  {| fileTree := t; messages := messages st;
     webContainer := webContainer st; mounted := mounted st;
     pending := pending st |}.

(** [webContainer.mount(t)]: the sandbox receives the call, and the
    promise is pending with the callbacks of its origin. *)
Definition mount (t : Tree) (o : Origin) (st : State) : State :=
  {| fileTree := fileTree st; messages := messages st;
     webContainer := webContainer st; mounted := mounted st ++ [t];
     pending := pending st ++ [{| p_tree := t; p_origin := o |}] |}.

(** [createReactApp] and [createExpressApp]: nothing without a sandbox. *)
Definition createApp (d : Directive) (st : State) : State :=
  if webContainer st then mount (Template d) (FromTemplate d) st else st.

Definition createReactApp : State -> State := createApp ReactScaffold.
Definition createExpressApp : State -> State := createApp ExpressScaffold.

(** [x.toLowerCase().includes(word)] on a message of any type. *)
Definition lower_includes (x : JSValue) (word : jsstring) : completion bool :=
  match x with
  | JStr s => Return (includes (toLowerCase s) word)
  | _ => Throw TypeError
  end.

Definition is_true (v : JSValue) : bool :=
  match v with
  | JBool true => true
  | _ => false
  end.

(** The body of the [try] for a message of the assistant, up to the
    append that both the [try] and its [catch] end with. *)
Definition assistant_message (message : JSValue) (st : State)
  : completion State :=
  bind (sanitizeJsonString message) (fun decoded =>
    let tree := opt_member decoded (u "fileTree") in
    if is_true tree then
      bind (lower_includes message (u "react")) (fun react =>
        if react then Return (createReactApp st)
        else
          bind (lower_includes message (u "express")) (fun express =>
            if express then Return (createExpressApp st) else Return st))
    else if webContainer st && truthy tree && typeof_object tree
    then Return (mount (Given tree) FromMessage st)
    else Return st).

(** The handler of [project-message]. *)
Definition onProjectMessage (st : State) (sender_id message : JSValue)
  : State :=
  let data := Wire sender_id message in
  match recognize sender_id message, message with
  | Some d, _ => createApp d (setMessages (Working d) (setMessages data st))
  | None, JStr _ =>
      if negb (is_ai sender_id) then setMessages data st
      else
        match assistant_message message st with
        | Return st' => setMessages data st'
        | Throw _ => setMessages data st
        end
  | None, _ =>
      if is_ai sender_id then
        match assistant_message message st with
        | Return st' => setMessages data st'
        | Throw _ => setMessages data st
        end
      else setMessages data st
  end.

Definition remove_nth {A} (i : nat) (l : list A) : list A :=
  firstn i l ++ skipn (S i) l.

(** The promise of the pending mount [i] settles.  Fulfilled, the tree of
    that call becomes the tree of the state, and a template reports its
    success; rejected, a template reports its failure and a tree of a
    message is only logged. *)
Definition settle (i : nat) (fulfilled : bool) (st : State) : State :=
  match nth_error (pending st) i with
  | None => st
  | Some p =>
      let st1 :=
        {| fileTree := fileTree st; messages := messages st;
           webContainer := webContainer st; mounted := mounted st;
           pending := remove_nth i (pending st) |} in
      if fulfilled then
        let st2 := setFileTree (p_tree p) st1 in
        match p_origin p with
        | FromTemplate d => setMessages (Created d) st2
        | FromMessage => st2
        end
      else
        match p_origin p with
        | FromTemplate d => setMessages (Failed d) st1
        | FromMessage => st1
        end
  end.

Inductive Event : Type :=
| Receive (sender_id message : JSValue)
| Settle (i : nat) (fulfilled : bool).

Definition step (st : State) (e : Event) : State :=
  match e with
  | Receive s m => onProjectMessage st s m
  | Settle i ok => settle i ok st
  end.

Definition run (st : State) (trace : list Event) : State :=
  fold_left step trace st.

(** ** Messages with a tree *)

(** The sender of the automated participant. *)
Definition assistant : JSValue := JStr (u "ai").



Definition first_message : JSValue :=
  JStr (js "{'text':'first','fileTree':{'a.txt':{'file':{'contents':'1'}}}}").

Definition second_message : JSValue :=
  JStr (js "{'text':'second','fileTree':{'b.txt':{'file':{'contents':'2'}}}}").

Definition first_tree : JSValue :=
  JObj [(u "a.txt", FileTree.file_node (u "1"))].

Definition second_tree : JSValue :=
  JObj [(u "b.txt", FileTree.file_node (u "2"))].

(** A workspace whose handler sees a started sandbox, with no mount in
    flight: the handler of an effect that ran after the boot. *)
Definition idle : State :=
  {| fileTree := Given (JObj []);
     messages := [];
     webContainer := true;
     mounted := [];
     pending := [] |}.

End Workspace.

(* ================================================================== *)
(** * The socket module *)
(* ================================================================== *)

Module Channel.

Definition MAX_RECONNECT_ATTEMPTS : nat := 5.

(** The options given to [io], and the [connected] flag that the client
    library keeps. *)
Record Socket : Type := {
  query_projectId : jsstring;
  reconnection : bool;
  opt_reconnectionAttempts : nat;
  reconnectionDelay : N;
  timeout : N;
  connected : bool
}.

Inductive LogLine : Type :=
| MissingProjectId
| ConnectionError
| MaxAttemptsReached
| ConnectedLine
| DisconnectedLine
| CannotSend
| CannotReceive.

(** The module's variables, and what it wrote to the console. *)
Record ChannelState : Type := {
  socket : option Socket;
  reconnectAttempts : nat;
  listeners : list jsstring;
  emitted : list jsstring;
  console : list LogLine
}.

Definition initial : ChannelState :=
  {| socket := None; reconnectAttempts := 0; listeners := [];
     emitted := []; console := [] |}.

Definition log (l : LogLine) (m : ChannelState) : ChannelState :=
  {| socket := socket m; reconnectAttempts := reconnectAttempts m;
     listeners := listeners m; emitted := emitted m;
     console := console m ++ [l] |}.

Definition set_connected (b : bool) (s : Socket) : Socket :=
  {| query_projectId := query_projectId s;
     reconnection := reconnection s;
     opt_reconnectionAttempts := opt_reconnectionAttempts s;
     reconnectionDelay := reconnectionDelay s;
     timeout := timeout s;
     connected := b |}.

(** The handler of [connect_error]. *)
Definition on_connect_error (m : ChannelState) : ChannelState :=
  let m1 := log ConnectionError m in
  let m2 :=
    {| socket := socket m1; reconnectAttempts := S (reconnectAttempts m1);
       listeners := listeners m1; emitted := emitted m1;
       console := console m1 |} in
  if MAX_RECONNECT_ATTEMPTS <=? reconnectAttempts m2
  then log MaxAttemptsReached m2
  else m2.

(** The handler of [connect]; the library has set [connected]. *)
Definition on_connect (m : ChannelState) : ChannelState :=
  let m1 := log ConnectedLine m in
  {| socket := option_map (set_connected true) (socket m1);
     reconnectAttempts := 0;
     listeners := listeners m1; emitted := emitted m1;
     console := console m1 |}.

(** The handler of [disconnect]; the library has cleared [connected]. *)
Definition on_disconnect (m : ChannelState) : ChannelState :=
  let m1 := log DisconnectedLine m in
  {| socket := option_map (set_connected false) (socket m1);
     reconnectAttempts := reconnectAttempts m1;
     listeners := listeners m1; emitted := emitted m1;
     console := console m1 |}.

(** [socket.disconnect()] of the client library: a connected socket fires
    its [disconnect] handlers at once, another one fires nothing. *)
Definition close (m : ChannelState) : ChannelState :=
  match socket m with
  | Some s => if connected s then on_disconnect m else m
  | None => m
  end.

(** [initializeSocket(projectId)]: without an identifier (the empty one
    stands for a missing one too) the result is [null] and nothing
    changes; otherwise an existing socket is closed and replaced, and the
    new socket is returned.  The counter is not touched. *)
Definition initializeSocket (projectId : jsstring) (m : ChannelState)
  : ChannelState * option Socket :=
  match projectId with
  | [] => (log MissingProjectId m, None)
  | _ =>
      let m1 := close m in
      let s := {| query_projectId := projectId;
                  reconnection := true;
                  opt_reconnectionAttempts := MAX_RECONNECT_ATTEMPTS;
                  reconnectionDelay := 2000%N;
                  timeout := 30000%N;
                  connected := false |} in
      ({| socket := Some s;
          reconnectAttempts := reconnectAttempts m1;
          listeners := [];
          emitted := emitted m1;
          console := console m1 |}, Some s)
  end.

(** [sendMessage(event, data)] *)
Definition sendMessage (event : jsstring) (m : ChannelState) : ChannelState * bool :=
  match socket m with
  | Some s =>
      if connected s then
        ({| socket := socket m; reconnectAttempts := reconnectAttempts m;
            listeners := listeners m; emitted := emitted m ++ [event];
            console := console m |}, true)
      else (log CannotSend m, false)
  | None => (log CannotSend m, false)
  end.

(** [receiveMessage(event, callback)] *)
Definition receiveMessage (event : jsstring) (m : ChannelState) : ChannelState * bool :=
  match socket m with
  | Some _ =>
      ({| socket := socket m; reconnectAttempts := reconnectAttempts m;
          listeners := listeners m ++ [event]; emitted := emitted m;
          console := console m |}, true)
  | None => (log CannotReceive m, false)
  end.

(** [disconnect()] *)
Definition disconnect (m : ChannelState) : ChannelState :=
  match socket m with
  | Some _ =>
      let m1 := close m in
      {| socket := None; reconnectAttempts := reconnectAttempts m1;
         listeners := []; emitted := emitted m1; console := console m1 |}
  | None => m
  end.

(** What happens to the channel: calls of its functions, and the events
    of the transport, which reach the handlers of the current socket. *)
Inductive Event : Type :=
| Initialize (projectId : jsstring)
| ConnectError
| Connect
| Disconnected
| Send (event : jsstring)
| Listen (event : jsstring)
| Teardown.

Definition step (m : ChannelState) (e : Event) : ChannelState :=
  match e with
  | Initialize p => fst (initializeSocket p m)
  | ConnectError =>
      match socket m with Some _ => on_connect_error m | None => m end
  | Connect =>
      match socket m with Some _ => on_connect m | None => m end
  | Disconnected =>
      match socket m with Some _ => on_disconnect m | None => m end
  | Send ev => fst (sendMessage ev m)
  | Listen ev => fst (receiveMessage ev m)
  | Teardown => disconnect m
  end.

Definition run (m : ChannelState) (trace : list Event) : ChannelState :=
  fold_left step trace m.

Definition reachable (m : ChannelState) : Prop :=
  exists trace, m = run initial trace.

(** The screen's [retryConnection]: [disconnect()], then
    [initializeSocket(project._id)]. *)
Definition retryConnection (projectId : jsstring) : list Event :=
  [Teardown; Initialize projectId].

(** ** Counting the connection errors of a trace *)

(** An event of the transport reaches a handler only through a socket:
    every such event of the trace finds one. *)
Fixpoint delivered (m : ChannelState) (trace : list Event) : bool :=
  match trace with
  | [] => true
  | e :: rest =>
      match e, socket m with
      | (ConnectError | Connect | Disconnected), None => false
      | _, _ => delivered (step m e) rest
      end
  end.

Definition is_connect (e : Event) : bool :=
  match e with Connect => true | _ => false end.

Definition is_connect_error (e : Event) : bool :=
  match e with ConnectError => true | _ => false end.

(** The events after the last [connect] event of a trace that has one. *)
Fixpoint after_last_connect (trace : list Event) : option (list Event) :=
  match trace with
  | [] => None
  | e :: rest =>
      match after_last_connect rest with
      | Some l => Some l
      | None => if is_connect e then Some rest else None
      end
  end.

(** The number of [connect_error] events. *)
Definition errors (trace : list Event) : nat :=
  List.length (filter is_connect_error trace).

End Channel.

(* ================================================================== *)
(** * The explorer, the tabs and the reader of the open file *)
(* ================================================================== *)

Module Explorer.

(** [node?.file?.contents] *)
Definition entry_contents (node : JSValue) : JSValue :=
  opt_member (opt_member node (u "file")) (u "contents").

(** [entries?.[file]?.file?.contents] for a name given at run time.  What
    a value has under a name that is not one of its own enumerable
    properties is a length, an inherited function or [undefined], and none
    of these has a [file]. *)
Definition contents_at (entries : JSValue) (file : jsstring) : JSValue :=
  match get_own (spread entries) file with
  | Some node => entry_contents node
  | None => JUndefined
  end.

(** The contents that [getCurrentFileContent] looks at: for a path with a
    slash the entry of the second segment in the directory of the first,
    otherwise the root entry. *)
Definition current_contents (fileTree : obj) (currentFile : jsstring)
  : JSValue :=
  if includes currentFile (u "/") then
    let parts := split slash currentFile in
    let dir := FileTree.segment 0 parts in
    let file := FileTree.segment 1 parts in
    contents_at (opt_member (get fileTree dir) (u "directory")) file
  else entry_contents (get fileTree currentFile).

(** What the editor area shows: nothing, or the highlighted contents;
    the highlighter is the library's. *)
Inductive Shown : Type :=
| Blank
| Highlighted (content : JSValue).

(** [getCurrentFileContent()] *)
Definition getCurrentFileContent (fileTree : obj) (currentFile : jsstring)
  : Shown :=
  match currentFile with
  | [] => Blank
  | _ =>
      let content := current_contents fileTree currentFile in
      if truthy content then Highlighted content else Blank
  end.

(** The names under which the explorer shows a directory header: the root
    names whose node has a truthy [directory]. *)
Definition directories (fileTree : obj) : list jsstring :=
  filter (fun key => truthy (opt_member (get fileTree key) (u "directory")))
         (map fst fileTree).

(** The paths that the buttons inside the directories open:
    [dir + '/' + file] for every key of the directory. *)
Definition nested_paths (fileTree : obj) : list jsstring :=
  flat_map
    (fun dir =>
       map (fun file => dir ++ slash :: file)
           (map fst (spread (opt_member (get fileTree dir) (u "directory")))))
    (directories fileTree).

(** [[...new Set(l)]]: the first occurrence of every element, in order. *)
Fixpoint unique_from (seen l : list jsstring) : list jsstring :=
  match l with
  | [] => []
  | x :: l' =>
      if existsb (str_eqb x) seen then unique_from seen l'
      else x :: unique_from (x :: seen) l'
  end.

Definition unique (l : list jsstring) : list jsstring := unique_from [] l.

(** The click on a file: [setOpenFiles([...new Set([...openFiles, file])])]. *)
Definition open_file (openFiles : list jsstring) (file : jsstring)
  : list jsstring :=
  unique (openFiles ++ [file]).

(** A series of edits: for each one the path of the open file and the
    text of the editor when it loses the focus. *)
Definition edit_all (st : FileTree.Editor) (edits : list (jsstring * jsstring))
  : FileTree.Editor :=
  fold_left (fun s e => fst (FileTree.onBlur s (fst e) (snd e))) edits st.

End Explorer.

(* ================================================================== *)
(** * The collaborator selection *)
(* ================================================================== *)

Module Collaborators.

(** A [Set] of identifiers, as its elements in insertion order. *)
Definition has (s : list jsstring) (id : jsstring) : bool :=
  existsb (str_eqb id) s.

Definition delete (s : list jsstring) (id : jsstring) : list jsstring :=
  filter (fun x => negb (str_eqb id x)) s.

Definition add (s : list jsstring) (id : jsstring) : list jsstring :=
  if has s id then s else s ++ [id].

(** [handleUserClick(id)] *)
Definition handleUserClick (selectedUserId : list jsstring) (id : jsstring)
  : list jsstring :=
  if has selectedUserId id then delete selectedUserId id
  else add selectedUserId id.

End Collaborators.

(* ================================================================== *)
(** * Rendering a message of the assistant *)
(* ================================================================== *)

Module Render.

(** ** [JSON.stringify] of an object with one string *)

Definition is_high_surrogate (c : code_unit) : bool :=
  N.leb 55296 c && N.leb c 56319.

Definition is_low_surrogate (c : code_unit) : bool :=
  N.leb 56320 c && N.leb c 57343.

Definition hex_digit (n : N) : code_unit :=
  if N.ltb n 10 then (48 + n)%N else (87 + n)%N.

(** [\uXXXX] with lower-case digits. *)
Definition unicode_escape (c : code_unit) : jsstring :=
  [ backslash; 117%N;
    hex_digit ((c / 4096) mod 16); hex_digit ((c / 256) mod 16);
    hex_digit ((c / 16) mod 16); hex_digit (c mod 16) ].

(** A code unit that is not part of a surrogate pair. *)
Definition quote_unit (c : code_unit) : jsstring :=
  if N.eqb c 8 then [backslash; 98%N]
  else if N.eqb c 9 then [backslash; 116%N]
  else if N.eqb c 10 then [backslash; 110%N]
  else if N.eqb c 12 then [backslash; 102%N]
  else if N.eqb c 13 then [backslash; 114%N]
  else if N.eqb c dquote then [backslash; dquote]
  else if N.eqb c backslash then [backslash; backslash]
  else if N.ltb c 32 || is_high_surrogate c || is_low_surrogate c
  then unicode_escape c
  else [c].

(** The characters of a string literal: a surrogate pair is kept, every
    other code unit is quoted by itself. *)
Fixpoint quote_units (s : jsstring) : jsstring :=
  match s with
  | [] => []
  | c :: r =>
      match r with
      | d :: r' =>
          if is_high_surrogate c && is_low_surrogate d
          then c :: d :: quote_units r'
          else quote_unit c ++ quote_units r
      | [] => quote_unit c
      end
  end.

(** [JSON.stringify({ text: t })] *)
Definition stringify_text (t : jsstring) : jsstring :=
  js "{'text':'" ++ quote_units t ++ js "'}".

(** ** [WriteAiMessage] *)

Inductive Rendered : Type :=
| NoMessage
| Markdown (children : JSValue)
| RenderFailure.

Definition no_content : JSValue := JStr (u "No content").

(** [WriteAiMessage(message)]: the placeholder for a falsy message, the
    text of the decoded message or [No content] for Markdown, and the
    fallback of the [catch]. *)
Definition WriteAiMessage (message : JSValue) : Rendered :=
  if negb (truthy message) then NoMessage
  else
    match sanitizeJsonString message with
    | Return messageObject =>
        let text := opt_member messageObject (u "text") in
        Markdown (if truthy text then text else no_content)
    | Throw _ => RenderFailure
    end.

End Render.

(* ================================================================== *)
(** * Sending a message *)
(* ================================================================== *)

Module Chat.

(** [s.trim()] *)
Fixpoint trim_start (s : jsstring) : jsstring :=
  match s with
  | c :: r => if is_space c then trim_start r else s
  | [] => []
  end.

Definition trim (s : jsstring) : jsstring :=
  rev (trim_start (rev (trim_start s))).

(** The part of the screen that [send] reads and writes: the socket
    module, the timeline, the input field, the error banner, the project
    identifier and the identifier of the user. *)
Record Screen : Type := {
  channel : Channel.ChannelState;
  messages : list Workspace.Entry;
  message : jsstring;
  socketError : bool;
  project_id : jsstring;
  user_id : JSValue
}.

(** [socket && socket.connected], the condition under which
    [sendMessage] emits. *)
Definition connected (m : Channel.ChannelState) : bool :=
  match Channel.socket m with
  | Some s => Channel.connected s
  | None => false
  end.

(** [send()]: nothing for a blank input; a message that the socket took
    is appended to the timeline and the input is cleared; otherwise the
    error banner is set and the socket is initialized again. *)
Definition send (sc : Screen) : Screen :=
  match trim (message sc) with
  | [] => sc
  | _ :: _ =>
      let (ch, success) :=
        Channel.sendMessage (u "project-message") (channel sc) in
      if success then
        {| channel := ch;
           messages :=
             messages sc ++ [Workspace.Wire (user_id sc) (JStr (message sc))];
           message := [];
           socketError := socketError sc;
           project_id := project_id sc;
           user_id := user_id sc |}
      else
        {| channel := fst (Channel.initializeSocket (project_id sc) ch);
           messages := messages sc;
           message := message sc;
           socketError := true;
           project_id := project_id sc;
           user_id := user_id sc |}
  end.

End Chat.

(* ================================================================== *)
(** * Starting the sandbox *)
(* ================================================================== *)

Module Container.

(** [getWebContainer()]: the booted instance, or [null] when the boot
    raises. *)
Definition getWebContainer {C : Type} (boot : completion C) : option C :=
  match boot with
  | Return instance => Some instance
  | Throw _ => None
  end.

(** The component around the handler.  [webContainer] is the state of
    [useState(null)]: whether it holds a started sandbox.  [handler] is
    the state that the handler of [project-message] works on.  The effect
    that creates the handler has the dependencies [[project._id]]: it runs
    after the first render, and again only when the identifier changes. *)
Record Component : Type := {
  webContainer : bool;
  handler : Workspace.State
}.

(** The handler of a render: it sees the [webContainer] of that render. *)
Definition created_in (render : bool) (st : Workspace.State)
  : Workspace.State :=
  {| Workspace.fileTree := Workspace.fileTree st;
     Workspace.messages := Workspace.messages st;
     Workspace.webContainer := render;
     Workspace.mounted := Workspace.mounted st;
     Workspace.pending := Workspace.pending st |}.

(** The first render and its effect: the state is [null], and the handler
    is created in this render. *)
Definition first_render (st : Workspace.State) : Component :=
  {| webContainer := false; handler := created_in false st |}.

(** [getWebContainer().then(container => setWebContainer(container))]:
    the state of the component changes; the handler stays the one that
    was created. *)
Definition setWebContainer {C : Type} (container : option C)
    (c : Component) : Component :=
  {| webContainer := match container with Some _ => true | None => false end;
     handler := handler c |}.

(** The effect runs again, for another identifier: the handler is created
    anew, in the current render. *)
Definition effect (c : Component) : Component :=
  {| webContainer := webContainer c;
     handler := created_in (webContainer c) (handler c) |}.

(** The screen as it starts: an empty tree, an empty timeline, nothing
    mounted. *)
Definition start : Workspace.State :=
  {| Workspace.fileTree := Workspace.Given (JObj []);
     Workspace.messages := [];
     Workspace.webContainer := false;
     Workspace.mounted := [];
     Workspace.pending := [] |}.


End Container.

(* ================================================================== *)
(** * The earlier screen *)
(* ================================================================== *)

Module LegacyWorkspace.

(** The state of the earlier screen: the tree, the timeline, whether the
    handler sees a started sandbox (the [webContainer] of the render whose
    effect created the handler), and the [mount] calls that the sandbox
    has received. *)
Record State : Type := {
  fileTree : JSValue;
  messages : list Workspace.Entry;
  webContainer : bool;
  mounted : list JSValue
}.

Definition setMessages (e : Workspace.Entry) (st : State) : State :=
  {| fileTree := fileTree st; messages := messages st ++ [e];
     webContainer := webContainer st; mounted := mounted st |}.

Definition setFileTree (t : JSValue) (st : State) : State :=
  {| fileTree := t; messages := messages st;
     webContainer := webContainer st; mounted := mounted st |}.

(** [webContainer.mount(t)], whose promise only logs a failure. *)
Definition mount (t : JSValue) (st : State) : State :=
  {| fileTree := fileTree st; messages := messages st;
     webContainer := webContainer st; mounted := mounted st ++ [t] |}.

(** The handler of [project-message]: a message of the assistant is
    decoded; a truthy [fileTree] is mounted when the sandbox is there and
    becomes the tree of the state at once; the message is appended. *)
Definition onProjectMessage (st : State) (sender_id message : JSValue)
  : State :=
  let data := Workspace.Wire sender_id message in
  if Workspace.is_ai sender_id then
    match LegacyDecoder.sanitizeJsonString message with
    | Return decoded =>
        let tree := opt_member decoded (u "fileTree") in
        let st1 :=
          if webContainer st && truthy tree then mount tree st else st in
        let st2 := if truthy tree then setFileTree tree st1 else st1 in
        setMessages data st2
    | Throw _ => setMessages data st
    end
  else setMessages data st.

(** The tree that the [onBlur] handler of the earlier screen sets: the
    name of the open file is a root key as it is. *)
Definition edited_tree (fileTree : obj) (currentFile updatedContent : jsstring)
  : obj :=
  set_own fileTree currentFile (FileTree.file_node updatedContent).

End LegacyWorkspace.

(* ================================================================== *)
(** * Facts about strings *)
(* ================================================================== *)

Section StringFacts.

Lemma str_eqb_refl (a : jsstring) : str_eqb a a = true.
Proof.
  induction a as [|x a IH]; simpl; [reflexivity|].
  now rewrite N.eqb_refl, IH.
Qed.

Lemma str_eqb_eq (a b : jsstring) : str_eqb a b = true <-> a = b.
Proof.
  split.
  - revert b; induction a as [|x a IH]; intros [|y b]; simpl;
      try discriminate; try reflexivity.
    intros H. apply andb_true_iff in H as [Hx Hr].
    apply N.eqb_eq in Hx. apply IH in Hr. now subst.
  - intros ->. apply str_eqb_refl.
Qed.

Lemma str_eqb_neq (a b : jsstring) : a <> b -> str_eqb a b = false.
Proof.
  intros H. destruct (str_eqb a b) eqn:E; [|reflexivity].
  apply str_eqb_eq in E. contradiction.
Qed.

Lemma startsWith_app (p r : jsstring) : startsWith p (p ++ r) = true.
Proof.
  induction p as [|x p IH]; simpl; [reflexivity|].
  now rewrite N.eqb_refl, IH.
Qed.

Lemma startsWith_inv (p s : jsstring) :
  startsWith p s = true -> exists r, s = p ++ r.
Proof.
  revert s; induction p as [|x p IH]; intros s H.
  - now exists s.
  - destruct s as [|y s]; simpl in H; [discriminate|].
    apply andb_true_iff in H as [Hx Hr].
    apply N.eqb_eq in Hx. destruct (IH _ Hr) as [r ->].
    exists r. now subst.
Qed.

Lemma includes_here (s sub : jsstring) :
  startsWith sub s = true -> includes s sub = true.
Proof. intros H. destruct s; simpl in *; rewrite H; reflexivity. Qed.

Lemma includes_later (c : code_unit) (s sub : jsstring) :
  includes s sub = true -> includes (c :: s) sub = true.
Proof. intros H. simpl. rewrite H. apply orb_true_r. Qed.

(** A string includes what stands between any two of its parts. *)
Lemma includes_app (pre sub post : jsstring) :
  includes (pre ++ sub ++ post) sub = true.
Proof.
  induction pre as [|c pre IH]; simpl app.
  - apply includes_here, startsWith_app.
  - now apply includes_later.
Qed.

Lemma includes_inv (s sub : jsstring) :
  includes s sub = true -> exists pre post, s = pre ++ sub ++ post.
Proof.
  induction s as [|c s IH]; simpl; intros H.
  - rewrite orb_false_r in H. apply startsWith_inv in H as [r ->].
    now exists [], r.
  - apply orb_true_iff in H as [H|H].
    + apply startsWith_inv in H as [r ->]. now exists [], r.
    + destruct (IH H) as (pre & post & ->). now exists (c :: pre), post.
Qed.

Lemma toLowerCase_app (a b : jsstring) :
  toLowerCase (a ++ b) = toLowerCase a ++ toLowerCase b.
Proof. apply map_app. Qed.

End StringFacts.

(* ================================================================== *)
(** * The decoder of Project.jsx *)
(* ================================================================== *)

Section DecoderFacts.

Import Decoder.

Variable parse : jsstring -> completion JSValue.

Lemma short_circuit (s : jsstring) :
  template_marker s = true ->
  sanitizeJsonString_with parse (JStr s) = Return (flagged_object react_notice).
Proof.
  unfold sanitizeJsonString_with. intros ->. reflexivity.
Qed.

Lemma recover_returns (s : jsstring) :
  exists v d, recover s = Return v /\ represents v d.
Proof.
  unfold recover.
  destruct (match_text s) as [[|c body]|].
  2:{ eexists _, (Text _). split; [reflexivity|]. now constructor. }
  all: destruct (includes s (quoted "fileTree")).
  all: first
    [ eexists _, (TreePresenceFlag _); split; [reflexivity|]; now constructor
    | eexists _, (Unparseable _); split; [reflexivity|]; constructor ].
Qed.

Lemma past_short_circuit (s : jsstring) :
  template_marker s = false ->
  sanitizeJsonString_with parse (JStr s)
  = match parse s with
    | Return v => Return v
    | Throw _ => recover s
    end.
Proof.
  unfold sanitizeJsonString_with. intros ->.
  unfold try_catch. destruct (parse s); [reflexivity|].
  destruct (recover_returns s) as (v & d & -> & _). reflexivity.
Qed.

Lemma flagged_is_flag (t : jsstring) :
  represents (flagged_object t) (TreePresenceFlag t).
Proof. now constructor. Qed.

Lemma flagged_not_tree (t b : jsstring) (tree : obj) :
  ~ represents (flagged_object t) (TextWithTree b tree).
Proof.
  intros H. inversion H; subst. simpl in *. discriminate.
Qed.

End DecoderFacts.

Section TruncatedText.

Import Decoder Json.

Lemma plain_unit_inv (c : code_unit) :
  plain_unit c = true -> N.eqb c dquote = false /\ N.eqb c backslash = false.
Proof.
  unfold plain_unit. intros H. apply negb_true_iff, orb_false_iff in H.
  exact H.
Qed.

(** *** The expressions on plain code units *)

Lemma plain_unit_class (x : code_unit) :
  plain_unit x = true ->
  negb (existsb (N.eqb x) [dquote; backslash]) = true.
Proof.
  intros H. destruct (plain_unit_inv _ H) as [Hq Hb].
  simpl. now rewrite Hq, Hb.
Qed.

Lemma plain_not_backslash (x : code_unit) :
  plain_unit x = true -> N.eqb backslash x = false.
Proof.
  intros H. destruct (plain_unit_inv _ H) as [_ Hb]. now rewrite N.eqb_sym.
Qed.

Lemma plain_not_quote (x : code_unit) :
  plain_unit x = true -> N.eqb dquote x = false.
Proof.
  intros H. destruct (plain_unit_inv _ H) as [Hq _]. now rewrite N.eqb_sym.
Qed.

(** An expression that starts with a backslash matches nowhere in a text
    without backslash, so a replacement leaves the text as it is. *)
Lemma replace_escaped_plain (x : code_unit) (t : list Regex.piece)
    (b : jsstring) :
  forallb plain_unit b = true ->
  Regex.replace_all (escaped x) t b = b.
Proof.
  unfold Regex.replace_all.
  induction b as [|c b IH]; intros H; [reflexivity|].
  simpl in H. apply andb_true_iff in H as [Hc Hb].
  cbn [Regex.replace_from].
  assert (Hm : Regex.match_here (escaped x) (c :: b) = None).
  { unfold Regex.match_here, escaped, Regex.unit_of. cbn [Regex.run].
    now rewrite (plain_not_backslash _ Hc). }
  rewrite Hm. now rewrite IH.
Qed.

Lemma unescape_plain (b : jsstring) :
  forallb plain_unit b = true -> unescape b = b.
Proof.
  intros H. unfold unescape.
  rewrite (replace_escaped_plain dquote _ b H).
  apply (replace_escaped_plain _ _ b H).
Qed.

Lemma body_step_plain (x : code_unit) (r : jsstring) (c : Regex.captures)
    (k : Regex.cont) :
  plain_unit x = true ->
  Regex.run body_step (x :: r) c k = Regex.or_else (k r c) (k r c).
Proof.
  intros Hx. unfold body_step, Regex.none_of, Regex.any, Regex.unit_of.
  cbn [Regex.run]. rewrite (plain_unit_class _ Hx).
  now rewrite (plain_not_backslash _ Hx).
Qed.

Lemma or_else_same (x : Regex.result) : Regex.or_else x x = x.
Proof. destruct x; reflexivity. Qed.

(** On plain code units the lazy star goes to the end of the input, when
    what follows cannot start at a plain code unit. *)
Lemma lazy_star_plain (k : Regex.cont) (b : jsstring) :
  (forall x r c, plain_unit x = true -> k (x :: r) c = None) ->
  forallb plain_unit b = true ->
  forall (n : nat) (c : Regex.captures),
    List.length b < n ->
    Regex.star_iter false (Regex.run body_step) n b c k = k [] c.
Proof.
  intros Hk. induction b as [|x r IH]; intros Hb n c Hn.
  - destruct n as [|n]; [lia|]. cbn. destruct (k [] c); reflexivity.
  - simpl in Hb. apply andb_true_iff in Hb as [Hx Hr].
    destruct n as [|n]; [simpl in Hn; lia|].
    cbn [Regex.star_iter]. rewrite (Hk x r c Hx).
    rewrite (body_step_plain x r c _ Hx), or_else_same.
    assert (Hlt : (List.length r <? List.length (x :: r)) = true).
    { apply Nat.ltb_lt. simpl. lia. }
    rewrite Hlt. cbn [Regex.or_else].
    apply (IH Hr n c). simpl in Hn. lia.
Qed.

Lemma closing_plain (x : code_unit) (r : jsstring) (c : Regex.captures)
    (k : Regex.cont) :
  plain_unit x = true -> Regex.run closing (x :: r) c k = None.
Proof.
  intros Hx. unfold closing, Regex.unit_of. cbn [Regex.run].
  now rewrite (plain_not_quote _ Hx).
Qed.

Lemma startsWith_In (p s : jsstring) (c : code_unit) :
  startsWith p s = true -> In c p -> In c s.
Proof.
  intros H Hin. apply startsWith_inv in H as [r ->].
  apply in_or_app. now left.
Qed.

Lemma plain_no_quote (b : jsstring) :
  forallb plain_unit b = true -> ~ In dquote b.
Proof.
  intros H Hin. rewrite forallb_forall in H. specialize (H _ Hin).
  discriminate.
Qed.

Lemma startsWith_quote_plain (p b : jsstring) :
  forallb plain_unit b = true -> In dquote p -> startsWith p b = false.
Proof.
  intros Hb Hp. destruct (startsWith p b) eqn:E; [|reflexivity].
  exfalso. eapply plain_no_quote; eauto using startsWith_In.
Qed.

Lemma includes_quote_plain (p b : jsstring) :
  forallb plain_unit b = true -> In dquote p -> includes b p = false.
Proof.
  intros Hb Hp. induction b as [|c b IH].
  - simpl. rewrite orb_false_r. apply startsWith_quote_plain; auto.
  - simpl. rewrite startsWith_quote_plain by auto.
    simpl in Hb. apply andb_true_iff in Hb as [_ Hb]. simpl. now apply IH.
Qed.

Lemma includes_cons (c : code_unit) (s p : jsstring) :
  includes (c :: s) p = startsWith p (c :: s) || includes s p.
Proof. reflexivity. Qed.

Lemma startsWith_cons (x y : code_unit) (p s : jsstring) :
  startsWith (x :: p) (y :: s) = N.eqb x y && startsWith p s.
Proof. reflexivity. Qed.

Lemma truncated_no_marker (b : jsstring) :
  forallb plain_unit b = true -> template_marker (text_opening ++ b) = false.
Proof.
  intros Hb. unfold template_marker.
  assert (Hq : In dquote (quoted "fileTree")) by (left; reflexivity).
  assert (H0 : includes (text_opening ++ b) (quoted "fileTree") = false).
  { pose proof (includes_quote_plain _ _ Hb Hq) as Hin.
    assert (Hs : startsWith (u "fileTree" ++ [dquote]) b = false).
    { apply startsWith_quote_plain; [exact Hb|].
      apply in_or_app. right. now left. }
    revert Hin Hs.
    let x := eval vm_compute in text_opening in change text_opening with x.
    let q := eval vm_compute in (quoted "fileTree") in
      change (quoted "fileTree") with q.
    let q := eval vm_compute in (u "fileTree" ++ [dquote]) in
      change (u "fileTree" ++ [dquote]) with q.
    intros Hin Hs. cbn [app]. rewrite !includes_cons, Hin.
    rewrite !startsWith_cons, Hs. reflexivity. }
  now rewrite H0.
Qed.

(** Inside a string, plain code units keep the parser inside the string,
    or stop it on a control character. *)
Lemma step_in_string (st : PState) (c : code_unit) :
  plain_unit c = true -> in_string_or_error st ->
  in_string_or_error (step st c).
Proof.
  intros Hc. destruct (plain_unit_inv _ Hc) as [Hq Hb].
  destruct st as [m stk].
  destruct m as [| | | | |k acc ss| | | | |]; simpl; try contradiction; auto.
  destruct ss; try contradiction. intros _.
  unfold step_string. rewrite Hq, Hb. destruct (N.ltb c 32); exact I.
Qed.

Lemma run_in_string (b : jsstring) (st : PState) :
  forallb plain_unit b = true -> in_string_or_error st ->
  in_string_or_error (fold_left step b st).
Proof.
  revert st; induction b as [|c b IH]; intros st Hb Hst; [exact Hst|].
  simpl in Hb. apply andb_true_iff in Hb as [Hc Hb].
  simpl. apply IH; [exact Hb|]. now apply step_in_string.
Qed.

Lemma finish_in_string (st : PState) :
  in_string_or_error st -> finish st = Throw SyntaxError.
Proof.
  destruct st as [m stk].
  destruct m as [| | | | |k acc ss| | | | |]; simpl; try contradiction; auto.
Qed.

Lemma truncated_parse_fails (b : jsstring) :
  forallb plain_unit b = true ->
  JSON_parse (text_opening ++ b) = Throw SyntaxError.
Proof.
  intros Hb. unfold JSON_parse. rewrite fold_left_app.
  apply finish_in_string, run_in_string; [exact Hb|].
  vm_compute. exact I.
Qed.

Lemma exec_here (r : Regex.regex) (s : jsstring)
    (res : jsstring * Regex.captures) :
  Regex.match_here r s = Some res -> Regex.exec r s = Some res.
Proof. intros H. destruct s; simpl; now rewrite H. Qed.

Lemma exec_next (r : Regex.regex) (x : code_unit) (s : jsstring) :
  Regex.match_here r (x :: s) = None ->
  Regex.exec r (x :: s) = Regex.exec r s.
Proof. intros H. simpl. now rewrite H. Qed.

Lemma truncated_match (b : jsstring) :
  forallb plain_unit b = true -> match_text (text_opening ++ b) = Some b.
Proof.
  intros Hb. unfold match_text, Regex.match_group.
  let x := eval vm_compute in text_opening in change text_opening with x.
  cbn [app].
  rewrite exec_next by reflexivity.
  rewrite (exec_here _ _ ([], [(1, b)])); [reflexivity|].
  unfold Regex.match_here, text_pattern.
  cbn -[Regex.star_iter body_step closing Nat.sub firstn List.length].
  cbn [Regex.star_iter is_space N.leb N.eqb N.compare Pos.compare
       Pos.compare_cont Pos.eqb andb orb Regex.or_else].
  change (Regex.star_iter false (Regex.run body_step) (S (List.length b)) b []
            (fun s' c' =>
               Regex.run closing s'
                 ((1, firstn (List.length b - List.length s') b) :: c')
                 (fun s'' c => Some (s'', c)))
          = Some ([], [(1, b)])).
  rewrite lazy_star_plain.
  - cbn. rewrite Nat.sub_0_r, firstn_all. reflexivity.
  - intros x r c Hx. apply closing_plain, Hx.
  - exact Hb.
  - lia.
Qed.

End TruncatedText.

(** The decoder on payloads of each kind. *)

Example decode_text :
  sanitizeJsonString (JStr (js "{'text':'hi'}"))
  = Return (Decoder.text_object (u "hi")).
Proof. vm_compute. reflexivity. Qed.

Example decode_text_with_tree :
  exists v,
    sanitizeJsonString
      (JStr (js "{'text':'hi', 'fileTree': {'a.txt':{'file':{'contents':'x'}}}}"))
    = Return v /\
    represents v
      (TextWithTree (u "hi") [(u "a.txt", FileTree.file_node (u "x"))]).
Proof.
  eexists. split; [vm_compute; reflexivity|].
  apply rep_tree; vm_compute; reflexivity.
Qed.

Example decode_garbage :
  sanitizeJsonString (JStr (u "garbage with no text field"))
  = Return (Decoder.text_object
              (Decoder.fallback_text (u "garbage with no text field"))).
Proof. vm_compute. reflexivity. Qed.

Example decode_escapes :
  sanitizeJsonString (JStr (js "{'text':'a\'b\nc', 'x': }"))
  = Return (Decoder.text_object (u "a" ++ dquote :: u "b" ++ newline :: u "c")).
Proof. vm_compute. reflexivity. Qed.

(** An unquoted name and a trailing comma: the earlier decoder repairs
    the text, the decoder of Project.jsx extracts nothing and keeps an
    excerpt. *)
Example legacy_repairs :
  LegacyDecoder.sanitize_text (js "{text: 'hi', }") = js "{'text': 'hi' }" /\
  LegacyDecoder.sanitizeJsonString (JStr (js "{text: 'hi', }"))
  = Return (Decoder.text_object (u "hi")) /\
  sanitizeJsonString (JStr (js "{text: 'hi', }"))
  = Return (Decoder.text_object (Decoder.fallback_text (js "{text: 'hi', }"))).
Proof. repeat split; vm_compute; reflexivity. Qed.

Section LegacyFacts.

Import LegacyDecoder.

Variable parse : jsstring -> completion JSValue.

Lemma last_resort_returns (s : jsstring) :
  exists b, last_resort s = Return (Decoder.text_object b).
Proof.
  unfold last_resort.
  destruct (match_text s) as [[|c body]|]; simpl; eauto.
Qed.

Lemma text_object_is_text (b : jsstring) :
  represents (Decoder.text_object b) (Text b).
Proof. now constructor. Qed.

End LegacyFacts.

(** C1 (as amended).  On every string, with any behaviour of [JSON.parse],
    both decoders return a value and raise nothing.  The value of
    Project.jsx is the value that [JSON.parse] gave for the input, as it
    is, or an object that stands for one of the variants; the value of the
    earlier decoder is what [JSON.parse] gave for the input or for the
    repaired text, or a text object. *)
Theorem decode_total :
  forall (parse : jsstring -> completion JSValue) (s : jsstring),
    (exists v,
        Decoder.sanitizeJsonString_with parse (JStr s) = Return v /\
        (parse s = Return v \/ exists d, represents v d))
    /\
    (exists v,
        LegacyDecoder.sanitizeJsonString_with parse (JStr s) = Return v /\
        (parse s = Return v \/
         parse (LegacyDecoder.balance (LegacyDecoder.sanitize_text s))
           = Return v \/
         exists b, represents v (Text b))).
Proof.
  intros parse s. split.
  - destruct (Decoder.template_marker s) eqn:Hm.
    + rewrite (short_circuit parse s Hm). eexists. split; [reflexivity|].
      right. eexists. apply flagged_is_flag.
    + rewrite (past_short_circuit parse s Hm).
      destruct (parse s) as [v|e] eqn:Hp.
      * exists v. split; [reflexivity|auto].
      * destruct (recover_returns s) as (v & d & Hr & Hd).
        exists v. split; [exact Hr|]. right. now exists d.
  - unfold LegacyDecoder.sanitizeJsonString_with, try_catch.
    destruct (parse s) as [v|e] eqn:Hp.
    + exists v. split; [reflexivity|auto].
    + destruct (parse (LegacyDecoder.balance (LegacyDecoder.sanitize_text s)))
        as [v|e'] eqn:Hp2.
      * exists v. split; [reflexivity|auto].
      * destruct (last_resort_returns s) as [b Hb].
        exists (Decoder.text_object b). split; [exact Hb|].
        right. right. exists b. apply text_object_is_text.
Qed.

(** C1, the claim as stated, fails: the text [42] is decoded to the number
    42, which is none of the four variants; the earlier decoder does the
    same. *)
Lemma decode_number_is_no_variant :
  sanitizeJsonString (JStr (u "42")) = Return (JNum (u "42")) /\
  LegacyDecoder.sanitizeJsonString (JStr (u "42")) = Return (JNum (u "42")) /\
  forall d, ~ represents (JNum (u "42")) d.
Proof.
  split; [vm_compute; reflexivity|].
  split; [vm_compute; reflexivity|].
  intros d H. inversion H.
Qed.

(** C6.  When the input holds the quoted marker of a file tree and one of
    the words [react] and [package.json], the decoder returns the fixed
    notice with the tree flag, whatever [JSON.parse] would do with the
    input: the result does not depend on the parser. *)
Theorem template_short_circuit :
  forall (parse : jsstring -> completion JSValue) (s : jsstring),
    includes s (quoted "fileTree") = true ->
    includes s (u "react") = true \/ includes s (u "package.json") = true ->
    Decoder.sanitizeJsonString_with parse (JStr s)
      = Return (Decoder.flagged_object Decoder.react_notice) /\
    represents (Decoder.flagged_object Decoder.react_notice)
               (TreePresenceFlag Decoder.react_notice).
Proof.
  intros parse s Hm Hk. split; [|apply flagged_is_flag].
  apply short_circuit. unfold Decoder.template_marker. rewrite Hm.
  destruct Hk as [-> | ->]; [reflexivity|]. simpl. apply orb_true_r.
Qed.

Lemma template_short_circuit_witness :
  includes Decoder.scaffold_payload (quoted "fileTree") = true /\
  sanitizeJsonString (JStr Decoder.scaffold_payload)
    = Return (Decoder.flagged_object Decoder.react_notice).
Proof.
  split; [vm_compute; reflexivity|].
  apply (template_short_circuit Json.JSON_parse Decoder.scaffold_payload).
  - vm_compute; reflexivity.
  - right. vm_compute; reflexivity.
Defined.

(** C9.  With the marker and a template word in the input, the decoder's
    value never stands for [TextWithTree]; this holds for a payload that
    [JSON.parse] accepts and whose [fileTree] is an object, such as
    [scaffold_payload]. *)
Theorem template_never_structural :
  (forall (parse : jsstring -> completion JSValue) (s : jsstring),
      includes s (quoted "fileTree") = true ->
      includes s (u "react") = true \/ includes s (u "package.json") = true ->
      exists v,
        Decoder.sanitizeJsonString_with parse (JStr s) = Return v /\
        forall b t, ~ represents v (TextWithTree b t))
  /\
  (exists v0 b t,
      Json.JSON_parse Decoder.scaffold_payload = Return v0 /\
      represents v0 (TextWithTree b t) /\
      Decoder.template_marker Decoder.scaffold_payload = true).
Proof.
  split.
  - intros parse s Hm Hk. eexists. split.
    + apply short_circuit. unfold Decoder.template_marker. rewrite Hm.
      destruct Hk as [-> | ->]; [reflexivity|]. simpl. apply orb_true_r.
    + intros b t. apply flagged_not_tree.
  - eexists _, _, _. split; [vm_compute; reflexivity|].
    split; [|vm_compute; reflexivity].
    apply rep_tree; vm_compute; reflexivity.
Qed.

Lemma template_never_structural_witness :
  exists v,
    sanitizeJsonString (JStr Decoder.scaffold_payload) = Return v /\
    forall b t, ~ represents v (TextWithTree b t).
Proof.
  apply (proj1 template_never_structural Json.JSON_parse Decoder.scaffold_payload).
  - vm_compute; reflexivity.
  - right. vm_compute; reflexivity.
Defined.

(** C10.  A value that is not a string comes back as it is, from both
    decoders, and nothing is raised. *)
Theorem non_string_passthrough :
  forall (parse : jsstring -> completion JSValue) (v : JSValue),
    (forall s, v <> JStr s) ->
    Decoder.sanitizeJsonString_with parse v = Return v /\
    LegacyDecoder.sanitizeJsonString_with parse v = Return v.
Proof.
  intros parse v Hv.
  destruct v; try (split; reflexivity).
  exfalso. now apply (Hv s).
Qed.

Lemma non_string_passthrough_witness :
  sanitizeJsonString (JObj [(u "text", JNum (u "1"))])
    = Return (JObj [(u "text", JNum (u "1"))]) /\
  LegacyDecoder.sanitizeJsonString JNull = Return JNull.
Proof.
  split.
  - apply (non_string_passthrough Json.JSON_parse). discriminate.
  - apply (non_string_passthrough Json.JSON_parse). discriminate.
Defined.

(** C7 (as amended).  When the first tier does not apply, [JSON.parse]
    raises, and the pattern of the [text] field matches with a body that is
    not empty, the decoder returns the text object of that body with
    escaped quotes and escaped line feeds replaced.  In particular a
    payload cut inside its text, the opening of an object with a [text]
    member followed by code units without quote or backslash, is decoded
    to its text. *)
Theorem field_extraction :
  (forall (parse : jsstring -> completion JSValue) (s body : jsstring)
          (e : JSError),
      Decoder.template_marker s = false ->
      parse s = Throw e ->
      Decoder.match_text s = Some body ->
      body <> [] ->
      Decoder.sanitizeJsonString_with parse (JStr s)
        = Return (Decoder.text_object (Decoder.unescape body)) /\
      represents (Decoder.text_object (Decoder.unescape body))
                 (Text (Decoder.unescape body)))
  /\
  (forall b : jsstring,
      b <> [] ->
      forallb Decoder.plain_unit b = true ->
      sanitizeJsonString (JStr (Decoder.text_opening ++ b))
        = Return (Decoder.text_object b)).
Proof.
  assert (general :
    forall parse s body e,
      Decoder.template_marker s = false ->
      parse s = Throw e ->
      Decoder.match_text s = Some body ->
      body <> [] ->
      Decoder.sanitizeJsonString_with parse (JStr s)
        = Return (Decoder.text_object (Decoder.unescape body))).
  { intros parse s body e Hm Hp Ht Hb.
    rewrite (past_short_circuit parse s Hm), Hp.
    unfold Decoder.recover. rewrite Ht.
    destruct body; [contradiction|reflexivity]. }
  split.
  - intros parse s body e Hm Hp Ht Hb. split; [eauto|].
    apply text_object_is_text.
  - intros b Hne Hb. unfold sanitizeJsonString.
    rewrite (general Json.JSON_parse (Decoder.text_opening ++ b) b SyntaxError).
    + now rewrite unescape_plain.
    + now apply truncated_no_marker.
    + now apply truncated_parse_fails.
    + now apply truncated_match.
    + exact Hne.
Qed.

Lemma field_extraction_witness :
  sanitizeJsonString (JStr Decoder.truncated_payload)
    = Return (Decoder.text_object (u "partial...")) /\
  sanitizeJsonString (JStr (js "{'text':'say \'hi\'\nbye', 'more': }"))
    = Return (Decoder.text_object
                (u "say " ++ dquote :: u "hi" ++ dquote :: newline :: u "bye")).
Proof.
  split.
  - apply (proj2 field_extraction (u "partial...")).
    + discriminate.
    + vm_compute; reflexivity.
  - destruct (proj1 field_extraction Json.JSON_parse
                (js "{'text':'say \'hi\'\nbye', 'more': }")
                (js "say \'hi\'\nbye") SyntaxError) as [H _].
    + vm_compute; reflexivity.
    + vm_compute; reflexivity.
    + vm_compute; reflexivity.
    + discriminate.
    + unfold sanitizeJsonString. rewrite H. vm_compute. reflexivity.
Defined.

(** C7, the claim as stated, fails.  The payload of the specification's
    example, with a member named [body], has no [text] field and gets the
    excerpt of the last tier; a payload whose [text] is found but empty
    gets it too; and the earlier decoder answers the cut payload with its
    fixed error text. *)
Lemma truncated_body_unparseable :
  sanitizeJsonString (JStr (js "{'body':'partial..."))
    = Return (Decoder.text_object
                (Decoder.fallback_text (js "{'body':'partial..."))) /\
  Decoder.match_text (js "{'text':'") = Some [] /\
  sanitizeJsonString (JStr (js "{'text':'"))
    = Return (Decoder.text_object (Decoder.fallback_text (js "{'text':'"))) /\
  LegacyDecoder.sanitizeJsonString (JStr Decoder.truncated_payload)
    = Return (Decoder.text_object LegacyDecoder.parse_failure_text).
Proof.
  repeat split; vm_compute; reflexivity.
Qed.

(* ================================================================== *)
(** * Objects *)
(* ================================================================== *)

Section ObjectFacts.

Lemma get_own_replace_own_same (o : obj) (k : jsstring) (v : JSValue) :
  get_own (replace_own o k v) k = Some v.
Proof.
  induction o as [|[k' v'] o IH]; simpl.
  - now rewrite str_eqb_refl.
  - destruct (str_eqb k' k) eqn:E; simpl; rewrite E; [reflexivity|exact IH].
Qed.

Lemma get_own_replace_own_other (o : obj) (k k' : jsstring) (v : JSValue) :
  k' <> k -> get_own (replace_own o k v) k' = get_own o k'.
Proof.
  intros Hne. induction o as [|[k0 v0] o IH]; simpl.
  - rewrite str_eqb_neq; [reflexivity|congruence].
  - destruct (str_eqb k0 k) eqn:E; simpl.
    + apply str_eqb_eq in E. subst k0.
      rewrite str_eqb_neq; [reflexivity|congruence].
    + now rewrite IH.
Qed.

Lemma replace_own_keys (o : obj) (k : jsstring) (v w : JSValue) :
  get_own o k = Some w -> map fst (replace_own o k v) = map fst o.
Proof.
  induction o as [|[k0 v0] o IH]; simpl; [discriminate|].
  destruct (str_eqb k0 k) eqn:E; simpl; [reflexivity|].
  intros H. now rewrite IH.
Qed.

Lemma get_own_insert_index_same (o : obj) (n : N) (k : jsstring)
    (v : JSValue) :
  get_own o k = None -> get_own (insert_index o n k v) k = Some v.
Proof.
  induction o as [|[k0 v0] o IH]; simpl.
  - now rewrite str_eqb_refl.
  - destruct (str_eqb k0 k) eqn:E; [discriminate|]. intros H.
    destruct (array_index k0) as [n0|]; [destruct (N.ltb n0 n)|];
      simpl; rewrite ?E, ?str_eqb_refl; auto.
Qed.

Lemma get_own_insert_index_other (o : obj) (n : N) (k k' : jsstring)
    (v : JSValue) :
  k' <> k -> get_own (insert_index o n k v) k' = get_own o k'.
Proof.
  intros Hne.
  assert (Hk : str_eqb k k' = false) by (apply str_eqb_neq; congruence).
  induction o as [|[k0 v0] o IH]; simpl.
  - now rewrite Hk.
  - destruct (array_index k0) as [n0|]; [destruct (N.ltb n0 n)|];
      simpl; rewrite ?Hk, ?IH; reflexivity.
Qed.

(** The three cases of [set_own]. *)
Lemma set_own_cases (o : obj) (k : jsstring) (v : JSValue) :
  (get_own o k = None /\
   exists n, array_index k = Some n /\ set_own o k v = insert_index o n k v)
  \/ set_own o k v = replace_own o k v.
Proof.
  unfold set_own. destruct (get_own o k); [now right|].
  destruct (array_index k) as [n|]; [left; eauto|now right].
Qed.

Lemma set_own_present (o : obj) (k : jsstring) (v w : JSValue) :
  get_own o k = Some w -> set_own o k v = replace_own o k v.
Proof. unfold set_own. now intros ->. Qed.

Lemma get_own_set_own_same (o : obj) (k : jsstring) (v : JSValue) :
  get_own (set_own o k v) k = Some v.
Proof.
  destruct (set_own_cases o k v) as [(Hn & n & _ & ->)| ->].
  - now apply get_own_insert_index_same.
  - apply get_own_replace_own_same.
Qed.

Lemma get_own_set_own_other (o : obj) (k k' : jsstring) (v : JSValue) :
  k' <> k -> get_own (set_own o k v) k' = get_own o k'.
Proof.
  intros Hne. destruct (set_own_cases o k v) as [(Hn & n & _ & ->)| ->].
  - now apply get_own_insert_index_other.
  - now apply get_own_replace_own_other.
Qed.

(** Setting a key that is there adds no key and moves none. *)
Lemma set_own_keys (o : obj) (k : jsstring) (v w : JSValue) :
  get_own o k = Some w -> map fst (set_own o k v) = map fst o.
Proof.
  intros H. rewrite (set_own_present o k v w H).
  now apply replace_own_keys with (w := w).
Qed.

End ObjectFacts.

(* ================================================================== *)
(** * Paths *)
(* ================================================================== *)

Section PathFacts.


Lemma split_first_segment (dir rest : jsstring) :
  ~ In slash dir ->
  split slash (dir ++ slash :: rest) = dir :: split slash rest.
Proof.
  induction dir as [|c dir IH]; simpl; intros H.
  - reflexivity.
  - destruct (N.eqb c slash) eqn:E.
    + apply N.eqb_eq in E. exfalso. apply H. now left.
    + rewrite IH; [reflexivity|]. intros Hin. apply H. now right.
Qed.

Lemma split_nonempty (s : jsstring) : split slash s <> [].
Proof.
  destruct s as [|c s]; simpl; [discriminate|].
  destruct (N.eqb c slash); [discriminate|].
  destruct (split slash s); discriminate.
Qed.

Lemma path_includes_slash (dir rest : jsstring) :
  includes (dir ++ slash :: rest) (u "/") = true.
Proof. apply (includes_app dir [slash] rest). Qed.

Lemma no_slash_no_include (s : jsstring) :
  ~ In slash s -> includes s (u "/") = false.
Proof.
  intros H. destruct (includes s (u "/")) eqn:E; [|reflexivity].
  apply includes_inv in E as (pre & post & ->).
  exfalso. apply H. apply in_or_app. right. now left.
Qed.

End PathFacts.

(* ================================================================== *)
(** * The editor *)
(* ================================================================== *)

Section EditorFacts.

Import FileTree.

Lemma edited_tree_nested (t : obj) (dir rest contents : jsstring) :
  ~ In slash dir ->
  edited_tree t (dir ++ slash :: rest) contents
  = bind (member (get t dir) (u "directory")) (fun entries =>
      Return
        (set_own t dir
           (JObj (set_own (spread (get t dir)) (u "directory")
                    (JObj (set_own (spread entries)
                             (segment 0 (split slash rest))
                             (file_node contents))))))).
Proof.
  intros Hd. unfold edited_tree.
  rewrite path_includes_slash.
  change 47%N with slash.
  rewrite (split_first_segment dir rest Hd).
  reflexivity.
Qed.


End EditorFacts.



(** C3 (as amended).  When the tree has no entry named by the first
    segment of the path, and that name is not one that every object
    inherits, the edit raises a [TypeError] before the tree is set: the
    state is as before, nothing is sent to the persistence endpoint, no
    directory is created and no error value is returned. *)
Theorem edit_missing_directory :
  forall (st : FileTree.Editor) (dir rest contents : jsstring),
    ~ In slash dir ->
    get_own (FileTree.fileTree st) dir = None ->
    inherited dir = false ->
    FileTree.onBlur st (dir ++ slash :: rest) contents = (st, Throw TypeError).
Proof.
  intros st dir rest contents Hd Hnone Hinh.
  unfold FileTree.onBlur.
  rewrite (edited_tree_nested _ dir rest contents Hd).
  unfold get. rewrite Hnone, Hinh. reflexivity.
Qed.

Lemma edit_missing_directory_witness :
  FileTree.onBlur FileTree.sample_editor (u "missing/App.js") (u "x")
    = (FileTree.sample_editor, Throw TypeError).
Proof.
  apply (edit_missing_directory FileTree.sample_editor (u "missing") (u "App.js")).
  - vm_compute. intuition discriminate.
  - reflexivity.
  - reflexivity.
Defined.

(** C3, the claim as stated, fails.  For the missing directory the handler
    raises instead of returning an error; and when the first segment names
    a file, not a directory, the handler completes and changes the tree:
    the file's node gets a [directory] with the new entry. *)
Lemma edit_missing_directory_throws :
  throws (snd (FileTree.onBlur FileTree.sample_editor (u "missing/App.js") (u "x"))) /\
  FileTree.onBlur FileTree.sample_editor (u "package.json/App.js") (u "x")
    = ({| FileTree.fileTree :=
            [ (u "package.json",
               JObj [ (u "file", JObj [(u "contents", JStr (u "{}"))]);
                      (u "directory",
                       JObj [(u "App.js", FileTree.file_node (u "x"))]) ]);
              (u "src",
               FileTree.directory_node
                 [ (u "index.js", FileTree.file_node (u "import App"));
                   (u "App.js", FileTree.file_node (u "old body")) ]) ];
          FileTree.project_id := Some (u "p1");
          FileTree.saved :=
            [ [ (u "package.json",
                 JObj [ (u "file", JObj [(u "contents", JStr (u "{}"))]);
                        (u "directory",
                         JObj [(u "App.js", FileTree.file_node (u "x"))]) ]);
                (u "src",
                 FileTree.directory_node
                   [ (u "index.js", FileTree.file_node (u "import App"));
                     (u "App.js", FileTree.file_node (u "old body")) ]) ] ]
       |}, Return tt).
Proof.
  split.
  - exists TypeError. vm_compute. reflexivity.
  - vm_compute. reflexivity.
Qed.

(* ================================================================== *)
(** * Directives *)
(* ================================================================== *)

Section DirectiveFacts.

Import Workspace.

Lemma lower_includes_phrase (pre x post phrase : jsstring) :
  toLowerCase x = phrase ->
  includes (toLowerCase (pre ++ x ++ post)) phrase = true.
Proof.
  intros <-. rewrite !toLowerCase_app. apply includes_app.
Qed.

End DirectiveFacts.

(** C8.  For a sender other than the assistant and a string message, the
    directive is found by looking for the fixed phrases in the lower-cased
    text.  A spelling of the React phrase in any letter case, with any
    text before and after it, gives the React directive; a spelling of one
    of the two Express phrases gives the Express directive unless the
    React phrase is there too; a text with none of the phrases gives no
    directive; and the example of the specification gives the React
    directive. *)
Theorem recognize_direct_commands :
  (forall (sender : JSValue) (pre x post : jsstring),
      Workspace.is_ai sender = false ->
      toLowerCase x = u "@ai create react app" ->
      Workspace.recognize sender (JStr (pre ++ x ++ post))
        = Some Workspace.ReactScaffold)
  /\
  (forall (sender : JSValue) (pre x post : jsstring),
      Workspace.is_ai sender = false ->
      toLowerCase x = u "@ai create express server" \/
      toLowerCase x = u "@ai create an express server" ->
      includes (toLowerCase (pre ++ x ++ post)) (u "@ai create react app")
        = false ->
      Workspace.recognize sender (JStr (pre ++ x ++ post))
        = Some Workspace.ExpressScaffold)
  /\
  (forall (sender : JSValue) (m : jsstring),
      includes (toLowerCase m) (u "@ai create react app") = false ->
      includes (toLowerCase m) (u "@ai create express server") = false ->
      includes (toLowerCase m) (u "@ai create an express server") = false ->
      Workspace.recognize sender (JStr m) = None)
  /\
  Workspace.recognize (JStr (u "user-1"))
      (JStr (u "please @ai create react app now"))
    = Some Workspace.ReactScaffold.
Proof.
  split; [|split; [|split]].
  - intros sender pre x post Hs Hx. unfold Workspace.recognize.
    rewrite Hs. simpl negb. cbv iota. unfold Workspace.direct_command.
    now rewrite (lower_includes_phrase pre x post _ Hx).
  - intros sender pre x post Hs Hx Hr. unfold Workspace.recognize.
    rewrite Hs. simpl negb. cbv iota. unfold Workspace.direct_command.
    rewrite Hr. destruct Hx as [Hx|Hx];
      rewrite (lower_includes_phrase pre x post _ Hx);
      [reflexivity|]. now rewrite orb_true_r.
  - intros sender m H1 H2 H3. unfold Workspace.recognize.
    unfold Workspace.direct_command. rewrite H1, H2, H3.
    destruct (negb _); reflexivity.
  - vm_compute. reflexivity.
Qed.

Lemma recognize_direct_commands_witness :
  Workspace.recognize (JStr (u "user-1"))
      (JStr (u "Please @AI Create React App now"))
    = Some Workspace.ReactScaffold /\
  Workspace.recognize (JStr (u "user-1"))
      (JStr (u "hey @ai CREATE AN EXPRESS SERVER"))
    = Some Workspace.ExpressScaffold /\
  Workspace.recognize (JStr (u "user-1")) (JStr (u "create react app"))
    = None.
Proof.
  split; [|split].
  - apply (proj1 recognize_direct_commands (JStr (u "user-1"))
             (u "Please ") (u "@AI Create React App") (u " now"));
      vm_compute; reflexivity.
  - apply (proj1 (proj2 recognize_direct_commands) (JStr (u "user-1"))
             (u "hey ") (u "@ai CREATE AN EXPRESS SERVER") []).
    + vm_compute; reflexivity.
    + right. vm_compute; reflexivity.
    + vm_compute; reflexivity.
  - apply (proj1 (proj2 (proj2 recognize_direct_commands)));
      vm_compute; reflexivity.
Defined.

(* ================================================================== *)
(** * The sandbox mirror *)
(* ================================================================== *)

Section MirrorFacts.

Import Workspace.

Lemma recognize_assistant (message : JSValue) :
  recognize assistant message = None.
Proof. destruct message; reflexivity. Qed.


End MirrorFacts.

Section TwoMounts.

Import Workspace.






End TwoMounts.




(* ================================================================== *)
(** * The channel *)
(* ================================================================== *)

Section ChannelFacts.

Import Channel.

Lemma run_app (m : ChannelState) (t1 t2 : list Event) :
  run m (t1 ++ t2) = run (run m t1) t2.
Proof. apply fold_left_app. Qed.

Lemma connect_error_counts (m : ChannelState) :
  reconnectAttempts (on_connect_error m) = S (reconnectAttempts m).
Proof.
  unfold on_connect_error. cbn -[Nat.leb].
  destruct (MAX_RECONNECT_ATTEMPTS <=? S (reconnectAttempts m)); reflexivity.
Qed.

Lemma connect_error_keeps_socket (m : ChannelState) :
  socket (on_connect_error m) = socket m.
Proof.
  unfold on_connect_error. cbn -[Nat.leb].
  destruct (MAX_RECONNECT_ATTEMPTS <=? S (reconnectAttempts m)); reflexivity.
Qed.

Lemma errors_add (n : nat) (m : ChannelState) :
  socket m <> None ->
  reconnectAttempts (run m (repeat ConnectError n)) = n + reconnectAttempts m /\
  socket (run m (repeat ConnectError n)) = socket m.
Proof.
  revert m. induction n as [|n IH]; intros m Hs; [now split|].
  assert (Hstep : step m ConnectError = on_connect_error m).
  { simpl. destruct (socket m); [reflexivity|contradiction]. }
  change (run m (repeat ConnectError (S n)))
    with (run (step m ConnectError) (repeat ConnectError n)).
  rewrite Hstep.
  destruct (IH (on_connect_error m)) as [Hc Hk].
  { now rewrite connect_error_keeps_socket. }
  rewrite Hc, Hk, connect_error_counts, connect_error_keeps_socket.
  split; [lia|reflexivity].
Qed.

Lemma close_counter (m : ChannelState) :
  reconnectAttempts (close m) = reconnectAttempts m.
Proof.
  unfold close. destruct (socket m) as [s|]; [|reflexivity].
  destruct (connected s); reflexivity.
Qed.

Lemma initialize_counter (p : jsstring) (m : ChannelState) :
  reconnectAttempts (fst (initializeSocket p m)) = reconnectAttempts m.
Proof. destruct p; [reflexivity|]. simpl. apply close_counter. Qed.

Lemma disconnect_counter (m : ChannelState) :
  reconnectAttempts (disconnect m) = reconnectAttempts m.
Proof.
  unfold disconnect. destruct (socket m) eqn:E; [|reflexivity].
  simpl. apply close_counter.
Qed.

(** The events that are neither a connection nor a connection error. *)
Lemma step_keeps_counter (m : ChannelState) (e : Event) :
  e <> Connect -> e <> ConnectError ->
  reconnectAttempts (step m e) = reconnectAttempts m.
Proof.
  intros Hc He. destruct e; try congruence; simpl.
  - apply initialize_counter.
  - destruct (socket m); reflexivity.
  - unfold sendMessage. destruct (socket m) as [s|]; [|reflexivity].
    destruct (connected s); reflexivity.
  - unfold receiveMessage. destruct (socket m); reflexivity.
  - apply disconnect_counter.
Qed.

Lemma step_counter (m : ChannelState) (e : Event) :
  reconnectAttempts (step m e) = reconnectAttempts m \/
  (e = ConnectError /\
   reconnectAttempts (step m e) = S (reconnectAttempts m)) \/
  (e = Connect /\ reconnectAttempts (step m e) = 0).
Proof.
  destruct e; try (left; apply step_keeps_counter; discriminate); simpl.
  - destruct (socket m); [|now left].
    right; left. split; [reflexivity|apply connect_error_counts].
  - destruct (socket m); [|now left]. right; right. now split.
Qed.

(** The counter after a trace whose events of the transport all find a
    socket. *)
Lemma counted (trace : list Event) (m : ChannelState) :
  delivered m trace = true ->
  reconnectAttempts (run m trace)
  = match after_last_connect trace with
    | Some l => errors l
    | None => reconnectAttempts m + errors trace
    end.
Proof.
  revert m. induction trace as [|e rest IH]; intros m Hd.
  - simpl. unfold errors. simpl. lia.
  - change (run m (e :: rest)) with (run (step m e) rest).
    assert (Hr : delivered (step m e) rest = true).
    { simpl in Hd. destruct e, (socket m); try discriminate; exact Hd. }
    rewrite (IH _ Hr). cbn [after_last_connect].
    destruct (after_last_connect rest) as [l|]; [reflexivity|].
    destruct e; cbn [is_connect];
      try (rewrite step_keeps_counter by discriminate; reflexivity).
    + simpl in Hd. simpl step.
      destruct (socket m); [|discriminate].
      rewrite connect_error_counts. unfold errors. simpl. lia.
    + simpl in Hd. simpl step.
      destruct (socket m); [|discriminate]. reflexivity.
Qed.

End ChannelFacts.

(** C4 (as amended).  The counter is the number of connection errors since
    the last successful connection and has no cap.  Each connection error
    on a socket adds one, also at and above [MAX_RECONNECT_ATTEMPTS], and
    writes the maximum-reached line exactly when the new count is at least
    that maximum; the socket is as before, so it stays unconnected.  Only
    the [connect] event sets the counter to 0: every event that is neither
    a connection nor a connection error keeps it, the [disconnect] event,
    [sendMessage], [receiveMessage], [initializeSocket] and [disconnect]
    alike, so a retry from the screen goes on counting, and an event after
    which the counter is lower is a connection.  After any trace whose
    events of the transport all find a socket, the counter is the number
    of connection errors after the last connection, and for a trace
    without a connection the counter of before plus its connection
    errors.  Every number is the counter of a reachable state.  The cap on
    retries is the option [reconnectionAttempts], set to the maximum on
    every socket. *)
Theorem reconnect_counter :
  (forall m : Channel.ChannelState,
      Channel.socket m <> None ->
      let m' := Channel.step m Channel.ConnectError in
      Channel.reconnectAttempts m' = S (Channel.reconnectAttempts m) /\
      Channel.socket m' = Channel.socket m /\
      Channel.console m'
        = Channel.console m ++
          Channel.ConnectionError ::
          (if Channel.MAX_RECONNECT_ATTEMPTS <=? S (Channel.reconnectAttempts m)
           then [Channel.MaxAttemptsReached] else []))
  /\
  (forall (m : Channel.ChannelState) (p : jsstring),
      Channel.reconnectAttempts (Channel.step m (Channel.Initialize p))
        = Channel.reconnectAttempts m /\
      Channel.reconnectAttempts (Channel.step m Channel.Teardown)
        = Channel.reconnectAttempts m /\
      Channel.reconnectAttempts
        (Channel.run m (Channel.retryConnection p))
        = Channel.reconnectAttempts m)
  /\
  (forall m : Channel.ChannelState,
      Channel.socket m <> None ->
      Channel.reconnectAttempts (Channel.step m Channel.Connect) = 0)
  /\
  (forall n : nat,
      exists m, Channel.reachable m /\ Channel.reconnectAttempts m = n)
  /\
  (forall (m : Channel.ChannelState) (p : jsstring) (s : Channel.Socket),
      snd (Channel.initializeSocket p m) = Some s ->
      Channel.opt_reconnectionAttempts s = Channel.MAX_RECONNECT_ATTEMPTS /\
      Channel.connected s = false)
  /\
  (forall (m : Channel.ChannelState) (e : Channel.Event),
      e <> Channel.Connect -> e <> Channel.ConnectError ->
      Channel.reconnectAttempts (Channel.step m e)
        = Channel.reconnectAttempts m)
  /\
  (forall (m : Channel.ChannelState) (e : Channel.Event),
      Channel.reconnectAttempts (Channel.step m e)
        < Channel.reconnectAttempts m ->
      e = Channel.Connect)
  /\
  (forall (m : Channel.ChannelState) (trace : list Channel.Event),
      Channel.delivered m trace = true ->
      Channel.reconnectAttempts (Channel.run m trace)
        = match Channel.after_last_connect trace with
          | Some l => Channel.errors l
          | None => Channel.reconnectAttempts m + Channel.errors trace
          end).
Proof.
  split; [|split; [|split; [|split; [|split; [|split; [|split]]]]]].
  - intros m Hs m'. subst m'. cbn -[Nat.leb Channel.on_connect_error].
    destruct (Channel.socket m) eqn:E; [|contradiction].
    unfold Channel.on_connect_error. cbn -[Nat.leb].
    destruct (Channel.MAX_RECONNECT_ATTEMPTS <=? S (Channel.reconnectAttempts m));
      cbn; rewrite ?E; repeat split; try reflexivity.
    now rewrite <- app_assoc.
  - intros m p. repeat split.
    + apply initialize_counter.
    + apply disconnect_counter.
    + simpl. now rewrite initialize_counter, disconnect_counter.
  - intros m Hs. simpl. destruct (Channel.socket m); [reflexivity|contradiction].
  - intros n.
    exists (Channel.run Channel.initial
              ([Channel.Initialize (u "p1")] ++ repeat Channel.ConnectError n)).
    split; [eexists; reflexivity|].
    rewrite run_app.
    destruct (errors_add n (Channel.run Channel.initial
                              [Channel.Initialize (u "p1")])) as [H _].
    { discriminate. }
    rewrite H. simpl. lia.
  - intros m p s H. destruct p; simpl in H; [discriminate|].
    injection H as <-. split; reflexivity.
  - exact step_keeps_counter.
  - intros m e H. destruct (step_counter m e) as [E|[[_ E]|[E _]]].
    + lia.
    + lia.
    + exact E.
  - intros m trace. apply counted.
Qed.

Lemma reconnect_counter_witness :
  Channel.reconnectAttempts
    (Channel.step
       (Channel.run Channel.initial
          (Channel.Initialize (u "p1") :: repeat Channel.ConnectError 5))
       Channel.ConnectError) = 6 /\
  Channel.reconnectAttempts
    (Channel.run Channel.initial
       [Channel.Initialize (u "p1"); Channel.Listen (u "project-message");
        Channel.ConnectError; Channel.ConnectError; Channel.Connect;
        Channel.Send (u "project-message"); Channel.Disconnected;
        Channel.ConnectError; Channel.Teardown;
        Channel.Initialize (u "p1"); Channel.Listen (u "project-message");
        Channel.ConnectError]) = 2.
Proof.
  split.
  - apply (proj1 reconnect_counter
             (Channel.run Channel.initial
                (Channel.Initialize (u "p1") :: repeat Channel.ConnectError 5))).
    vm_compute. discriminate.
  - destruct reconnect_counter as (_ & _ & _ & _ & _ & _ & _ & H).
    rewrite H; reflexivity.
Defined.

(** C4, the claim as stated, fails: the counter passes the maximum.  The
    first connection failure and the five retries that the transport is
    given make six errors on one socket; and three errors, a retry from the
    screen, and three more errors make six as well. *)
Lemma reconnect_counter_exceeds_maximum :
  let one_socket :=
    Channel.run Channel.initial
      (Channel.Initialize (u "p1") :: repeat Channel.ConnectError 6) in
  let two_sockets :=
    Channel.run Channel.initial
      (Channel.Initialize (u "p1") :: repeat Channel.ConnectError 3 ++
       Channel.retryConnection (u "p1") ++ repeat Channel.ConnectError 3) in
  Channel.reachable one_socket /\
  Channel.reconnectAttempts one_socket = 6 /\
  Channel.reachable two_sockets /\
  Channel.reconnectAttempts two_sockets = 6 /\
  ~ (6 <= Channel.MAX_RECONNECT_ATTEMPTS).
Proof.
  cbv zeta. split; [eexists; reflexivity|].
  split; [vm_compute; reflexivity|].
  split; [eexists; reflexivity|].
  split; [vm_compute; reflexivity|].
  unfold Channel.MAX_RECONNECT_ATTEMPTS. lia.
Qed.

(* ================================================================== *)
(** * More about objects and the editor *)
(* ================================================================== *)

Section MoreObjectFacts.

Lemma replace_own_twice (o : obj) (k : jsstring) (v w : JSValue) :
  replace_own (replace_own o k v) k w = replace_own o k w.
Proof.
  induction o as [|[k0 v0] o IH]; simpl.
  - now rewrite str_eqb_refl.
  - destruct (str_eqb k0 k) eqn:E; simpl; rewrite E; [reflexivity|].
    now rewrite IH.
Qed.

Lemma replace_own_inserted (o : obj) (n : N) (k : jsstring) (v w : JSValue) :
  get_own o k = None ->
  replace_own (insert_index o n k v) k w = insert_index o n k w.
Proof.
  induction o as [|[k0 v0] o IH]; simpl.
  - now rewrite str_eqb_refl.
  - destruct (str_eqb k0 k) eqn:E; [discriminate|]. intros H.
    destruct (array_index k0) as [n0|]; [destruct (N.ltb n0 n)|];
      simpl; rewrite ?E, ?str_eqb_refl, ?IH; auto.
Qed.

Lemma set_own_set_own (o : obj) (k : jsstring) (v w : JSValue) :
  set_own (set_own o k v) k w = set_own o k w.
Proof.
  rewrite (set_own_present _ k w v (get_own_set_own_same o k v)).
  unfold set_own.
  destruct (get_own o k) eqn:Hg; [apply replace_own_twice|].
  destruct (array_index k) as [n|]; [|apply replace_own_twice].
  now apply replace_own_inserted.
Qed.

Lemma replace_own_new_key (o : obj) (k : jsstring) (v : JSValue) :
  get_own o k = None -> map fst (replace_own o k v) = map fst o ++ [k].
Proof.
  induction o as [|[k0 v0] o IH]; simpl; [reflexivity|].
  destruct (str_eqb k0 k) eqn:E; [discriminate|].
  intros H. simpl. now rewrite IH.
Qed.

(** A new key that is no array index comes last. *)
Lemma set_own_new_key (o : obj) (k : jsstring) (v : JSValue) :
  get_own o k = None -> array_index k = None ->
  map fst (set_own o k v) = map fst o ++ [k].
Proof.
  intros Hg Hi. unfold set_own. rewrite Hg, Hi.
  now apply replace_own_new_key.
Qed.

(** Where a new array index goes: after the keys that are smaller array
    indices, before the first key that is none. *)
Lemma insert_index_keys (o : obj) (n : N) (k : jsstring) (v : JSValue) :
  exists l1 l2,
    map fst o = l1 ++ l2 /\
    map fst (insert_index o n k v) = l1 ++ k :: l2 /\
    (forall x, In x l1 -> exists i, array_index x = Some i /\ (i < n)%N) /\
    (forall x r, l2 = x :: r ->
       forall i, array_index x = Some i -> (n <= i)%N).
Proof.
  induction o as [|[k0 v0] o IH]; simpl.
  - exists [], []. repeat split; try contradiction. discriminate.
  - destruct (array_index k0) as [n0|] eqn:E0.
    + destruct (N.ltb n0 n) eqn:L.
      * destruct IH as (l1 & l2 & H1 & H2 & H3 & H4).
        exists (k0 :: l1), l2. simpl. rewrite H1, H2.
        repeat split; try assumption.
        intros x [<-|Hx]; [|now apply H3].
        exists n0. split; [exact E0|now apply N.ltb_lt].
      * exists [], (k0 :: map fst o). repeat split; try contradiction.
        intros x r Hx i Hi. injection Hx as <- _.
        rewrite E0 in Hi. injection Hi as <-. now apply N.ltb_ge.
    + exists [], (k0 :: map fst o). repeat split; try contradiction.
      intros x r Hx i Hi. injection Hx as <- _. congruence.
Qed.

Lemma get_own_some_in (o : obj) (k : jsstring) (v : JSValue) :
  get_own o k = Some v -> In k (map fst o).
Proof.
  induction o as [|[k0 v0] o IH]; simpl; [discriminate|].
  destruct (str_eqb k0 k) eqn:E.
  - apply str_eqb_eq in E. now left.
  - intros H. right. now apply IH.
Qed.

Lemma in_keys_get_own (o : obj) (k : jsstring) :
  In k (map fst o) -> exists v, get_own o k = Some v.
Proof.
  induction o as [|[k0 v0] o IH]; simpl; [contradiction|].
  intros [->|H].
  - rewrite str_eqb_refl. now exists v0.
  - destruct (str_eqb k0 k); [now exists v0|now apply IH].
Qed.

Lemma get_set_own_same (o : obj) (k : jsstring) (v : JSValue) :
  get (set_own o k v) k = v.
Proof. unfold get. now rewrite get_own_set_own_same. Qed.

End MoreObjectFacts.

Section MoreEditorFacts.

Import FileTree Explorer.

Lemma edited_tree_root (t : obj) (f c : jsstring) :
  ~ In slash f ->
  edited_tree t f c = Return (set_own t f (file_node c)).
Proof.
  intros H. unfold edited_tree. now rewrite (no_slash_no_include f H).
Qed.

(** A path with a slash, cut at its first slash. *)
Lemma path_cut (p : jsstring) :
  includes p (u "/") = true ->
  exists dir rest, p = dir ++ slash :: rest /\ ~ In slash dir.
Proof.
  induction p as [|c p IH]; intros H.
  - discriminate.
  - destruct (N.eqb c slash) eqn:E.
    + apply N.eqb_eq in E. subst c. exists [], p. split; [reflexivity|].
      intros [].
    + change (includes (c :: p) (u "/"))
        with (startsWith (u "/") (c :: p) || includes p (u "/")) in H.
      assert (Hs : startsWith (u "/") (c :: p) = false).
      { change (startsWith (u "/") (c :: p)) with (N.eqb slash c && true).
        now rewrite N.eqb_sym, E. }
      rewrite Hs in H. simpl in H.
      destruct (IH H) as (dir & rest & -> & Hd).
      exists (c :: dir), rest. split; [reflexivity|].
      intros [Hc|Hin]; [|contradiction].
      subst c. now rewrite N.eqb_refl in E.
Qed.

Lemma entry_contents_file_node (c : jsstring) :
  entry_contents (file_node c) = JStr c.
Proof. reflexivity. Qed.

Lemma truthy_text (c : jsstring) : c <> [] -> truthy (JStr c) = true.
Proof.
  intros H. simpl. destruct c; [contradiction|reflexivity].
Qed.

(** The tree of a nested edit that completes. *)
Lemma edited_tree_nested_inv (t : obj) (dir rest c : jsstring) (ft : obj) :
  ~ In slash dir ->
  edited_tree t (dir ++ slash :: rest) c = Return ft ->
  exists entries,
    member (get t dir) (u "directory") = Return entries /\
    ft = set_own t dir
           (JObj (set_own (spread (get t dir)) (u "directory")
                    (JObj (set_own (spread entries)
                             (segment 0 (split slash rest))
                             (file_node c))))).
Proof.
  intros Hd H. rewrite (edited_tree_nested t dir rest c Hd) in H.
  destruct (member (get t dir) (u "directory")) as [entries|e]; simpl in H;
    [|discriminate].
  exists entries. split; [reflexivity|]. now injection H as <-.
Qed.

Lemma current_contents_nested (t : obj) (dir rest : jsstring) :
  ~ In slash dir ->
  current_contents t (dir ++ slash :: rest)
  = contents_at (opt_member (get t dir) (u "directory"))
                (segment 0 (split slash rest)).
Proof.
  intros Hd. unfold current_contents.
  rewrite path_includes_slash, (split_first_segment dir rest Hd).
  reflexivity.
Qed.

End MoreEditorFacts.

(** X5.  An edit of a name without a slash always completes: the root
    entry of that name becomes the file with the new contents, whatever it
    was, and every other root entry is the same value.  The names keep
    their order: a name that was there keeps its place; a new name that is
    no array index comes last; a new name that is an array index goes
    among the array indices, after the smaller ones and before every
    other name.  The handler of the earlier screen builds the same tree. *)
Theorem root_edit_completes :
  forall (st : FileTree.Editor) (f c : jsstring),
    ~ In slash f ->
    let t := FileTree.fileTree st in
    let ft := set_own t f (FileTree.file_node c) in
    FileTree.onBlur st f c
      = (FileTree.saveFileTree ft (FileTree.setFileTree ft st), Return tt) /\
    LegacyWorkspace.edited_tree t f c = ft /\
    get_own ft f = Some (FileTree.file_node c) /\
    (forall k, k <> f -> get_own ft k = get_own t k) /\
    (get_own t f <> None -> map fst ft = map fst t) /\
    (get_own t f = None -> array_index f = None ->
     map fst ft = map fst t ++ [f]) /\
    (get_own t f = None ->
     forall n, array_index f = Some n ->
     exists before after,
       map fst t = before ++ after /\
       map fst ft = before ++ f :: after /\
       (forall k, In k before ->
          exists i, array_index k = Some i /\ (i < n)%N) /\
       (forall k rest, after = k :: rest ->
          forall i, array_index k = Some i -> (n <= i)%N)).
Proof.
  intros st f c Hf t ft. subst t ft.
  split.
  { unfold FileTree.onBlur. now rewrite (edited_tree_root _ f c Hf). }
  split; [reflexivity|].
  split; [apply get_own_set_own_same|].
  split; [intros k Hk; now apply get_own_set_own_other|].
  split; [|split].
  - destruct (get_own (FileTree.fileTree st) f) eqn:E; [|congruence].
    intros _. eapply set_own_keys; eauto.
  - intros Hg Hi. now apply set_own_new_key.
  - intros Hg n Hi. unfold set_own. rewrite Hg, Hi.
    apply insert_index_keys.
Qed.

Lemma root_edit_completes_witness :
  map fst
    (FileTree.fileTree
       (fst (FileTree.onBlur FileTree.sample_editor (u "README.md") (u "hi"))))
  = [u "package.json"; u "src"; u "README.md"].
Proof.
  destruct (root_edit_completes FileTree.sample_editor (u "README.md") (u "hi"))
    as (Hb & _ & _ & _ & _ & Hk & _).
  - vm_compute. intuition discriminate.
  - rewrite Hb. vm_compute. reflexivity.
Defined.

(** A new name that is an array index comes first in the sample tree. *)
Example root_edit_index_first :
  map fst
    (FileTree.fileTree
       (fst (FileTree.onBlur FileTree.sample_editor (u "1") (u "hi"))))
  = [u "1"; u "package.json"; u "src"].
Proof. vm_compute. reflexivity. Qed.

(** X6.  An edit that completes is read back: after it, the reader of the
    open file finds the new contents under the same path, for a root name
    and for a nested path, whatever the tree was before. *)
Theorem edit_then_read :
  forall (t ft : obj) (p c : jsstring),
    FileTree.edited_tree t p c = Return ft ->
    p <> [] ->
    c <> [] ->
    Explorer.getCurrentFileContent ft p = Explorer.Highlighted (JStr c).
Proof.
  intros t ft p c He Hp Hc.
  assert (Hcur : Explorer.current_contents ft p = JStr c).
  { destruct (includes p (u "/")) eqn:Hi.
    - destruct (path_cut p Hi) as (dir & rest & -> & Hd).
      destruct (edited_tree_nested_inv t dir rest c ft Hd He)
        as (entries & _ & ->).
      rewrite (current_contents_nested _ dir rest Hd).
      unfold get. rewrite get_own_set_own_same.
      unfold opt_member at 1. simpl member.
      rewrite get_own_set_own_same.
      unfold Explorer.contents_at. simpl spread.
      now rewrite get_own_set_own_same.
    - unfold FileTree.edited_tree in He. rewrite Hi in He.
      injection He as <-.
      unfold Explorer.current_contents. rewrite Hi.
      unfold get. now rewrite get_own_set_own_same. }
  unfold Explorer.getCurrentFileContent. rewrite Hcur, (truthy_text c Hc).
  destruct p; [contradiction|reflexivity].
Qed.

Lemma edit_then_read_witness :
  Explorer.getCurrentFileContent
    (FileTree.fileTree
       (fst (FileTree.onBlur FileTree.sample_editor (u "package.json/App.js")
               (u "x"))))
    (u "package.json/App.js")
  = Explorer.Highlighted (JStr (u "x")).
Proof.
  apply (edit_then_read (FileTree.fileTree FileTree.sample_editor)).
  - vm_compute. reflexivity.
  - discriminate.
  - discriminate.
Defined.

(** X7.  Where the edit raises, the reader does not: for every tree and
    path on which the edit handler raises, the reader of the open file
    shows the blank text. *)
Theorem read_where_edit_raises :
  forall (t : obj) (p c : jsstring) (e : JSError),
    FileTree.edited_tree t p c = Throw e ->
    Explorer.getCurrentFileContent t p = Explorer.Blank.
Proof.
  intros t p c e He.
  destruct (includes p (u "/")) eqn:Hi.
  - destruct (path_cut p Hi) as (dir & rest & -> & Hd).
    rewrite (edited_tree_nested t dir rest c Hd) in He.
    unfold Explorer.getCurrentFileContent.
    rewrite (current_contents_nested t dir rest Hd).
    destruct (get t dir) eqn:Hg; simpl in He; try discriminate;
      try (destruct (get_own props (u "directory")); discriminate).
    all: destruct (dir ++ slash :: rest); reflexivity.
  - unfold FileTree.edited_tree in He. rewrite Hi in He. discriminate.
Qed.

Lemma read_where_edit_raises_witness :
  Explorer.getCurrentFileContent (FileTree.fileTree FileTree.sample_editor)
    (u "missing/App.js") = Explorer.Blank.
Proof.
  apply (read_where_edit_raises _ _ (u "x") TypeError).
  vm_compute. reflexivity.
Defined.

(** X8.  The last edit of a path wins: when an edit of a path completes,
    a second edit of the same path gives the tree that the second edit
    alone gives on the first tree. *)
Theorem edit_twice_is_last_edit :
  forall (t ft : obj) (p c1 c2 : jsstring),
    FileTree.edited_tree t p c1 = Return ft ->
    FileTree.edited_tree ft p c2 = FileTree.edited_tree t p c2.
Proof.
  intros t ft p c1 c2 He.
  destruct (includes p (u "/")) eqn:Hi.
  - destruct (path_cut p Hi) as (dir & rest & -> & Hd).
    destruct (edited_tree_nested_inv t dir rest c1 ft Hd He)
      as (entries & Hm & ->).
    rewrite !(edited_tree_nested _ dir rest c2 Hd).
    rewrite Hm, !get_set_own_same.
    simpl member. rewrite get_own_set_own_same. simpl.
    now rewrite !set_own_set_own.
  - unfold FileTree.edited_tree in *. rewrite Hi in *.
    injection He as <-. now rewrite set_own_set_own.
Qed.

Lemma edit_twice_is_last_edit_witness :
  FileTree.edited_tree
    (set_own (FileTree.fileTree FileTree.sample_editor) (u "a.txt")
       (FileTree.file_node (u "one")))
    (u "a.txt") (u "two")
  = FileTree.edited_tree (FileTree.fileTree FileTree.sample_editor)
      (u "a.txt") (u "two").
Proof.
  apply (edit_twice_is_last_edit _ _ _ (u "one")).
  vm_compute. reflexivity.
Defined.

Section PersistenceFacts.

Import FileTree Explorer.

(** What one edit does to the state. *)
Lemma onBlur_cases (st : Editor) (p c : jsstring) :
  fst (onBlur st p c) = st \/
  exists ft,
    fst (onBlur st p c) = saveFileTree ft (setFileTree ft st).
Proof.
  unfold onBlur. destruct (edited_tree (fileTree st) p c) as [ft|e].
  - right. now exists ft.
  - now left.
Qed.

Lemma edit_all_app (st : Editor) (a b : list (jsstring * jsstring)) :
  edit_all st (a ++ b) = edit_all (edit_all st a) b.
Proof. apply fold_left_app. Qed.

End PersistenceFacts.

(** X9.  Through any series of edits the project identifier stays.
    Without one, nothing is ever sent to the persistence endpoint.  With
    one, what was sent before stays, and either no edit has completed, and
    the tree and the sent trees are as at the start, or the tree sent last
    is the tree of the state. *)
Theorem saved_follows_tree :
  forall (st : FileTree.Editor) (edits : list (jsstring * jsstring)),
    let st' := Explorer.edit_all st edits in
    FileTree.project_id st' = FileTree.project_id st /\
    (FileTree.project_id st = None ->
     FileTree.saved st' = FileTree.saved st) /\
    (FileTree.project_id st <> None ->
     (FileTree.saved st' = FileTree.saved st /\
      FileTree.fileTree st' = FileTree.fileTree st) \/
     exists sent,
       FileTree.saved st'
       = FileTree.saved st ++ sent ++ [FileTree.fileTree st']).
Proof.
  intros st edits. cbv zeta.
  induction edits as [|[p c] edits IH] using rev_ind.
  - simpl. repeat split; auto.
  - rewrite edit_all_app.
    destruct IH as (Hid & Hnone & Hsome).
    set (s1 := Explorer.edit_all st edits) in *.
    change (Explorer.edit_all s1 [(p, c)])
      with (fst (FileTree.onBlur s1 p c)).
    destruct (onBlur_cases s1 p c) as [E|[ft E]]; rewrite E.
    + repeat split; auto.
    + unfold FileTree.saveFileTree, FileTree.setFileTree. simpl.
      destruct (FileTree.project_id s1) eqn:Hp1; simpl.
      * split; [congruence|]. split; [intros H; congruence|].
        intros Hs. right.
        destruct (Hsome Hs) as [[Hsv _]|[sent Hsv]].
        -- exists []. now rewrite Hsv.
        -- exists (sent ++ [FileTree.fileTree s1]).
           rewrite Hsv. now rewrite <- !app_assoc.
      * split; [congruence|]. split; [exact Hnone|].
        intros Hs. congruence.
Qed.

Lemma saved_follows_tree_witness :
  FileTree.saved
    (Explorer.edit_all FileTree.sample_editor
       [(u "missing/a.js", u "1"); (u "src/App.js", u "2")])
  = [ FileTree.fileTree
        (Explorer.edit_all FileTree.sample_editor
           [(u "missing/a.js", u "1"); (u "src/App.js", u "2")]) ].
Proof.
  destruct (saved_follows_tree FileTree.sample_editor
              [(u "missing/a.js", u "1"); (u "src/App.js", u "2")])
    as (_ & _ & H).
  assert (Hp : FileTree.project_id FileTree.sample_editor <> None)
    by (vm_compute; discriminate).
  destruct (H Hp) as [[H1 _]|[sent H1]].
  - vm_compute in H1. discriminate.
  - vm_compute. reflexivity.
Defined.

Section ExplorerFacts.

Import FileTree Explorer.

Lemma truthy_directory_member (v : JSValue) :
  truthy (opt_member v (u "directory")) = true ->
  member v (u "directory") = Return (opt_member v (u "directory")).
Proof.
  unfold opt_member.
  destruct (member v (u "directory")) as [x|e]; [reflexivity|discriminate].
Qed.

(** A nested path of the explorer: a directory of the explorer, a slash,
    and a key of that directory. *)
Lemma nested_paths_inv (t : obj) (p : jsstring) :
  In p (nested_paths t) ->
  exists dir file,
    p = dir ++ slash :: file /\
    In dir (map fst t) /\
    truthy (opt_member (get t dir) (u "directory")) = true.
Proof.
  unfold nested_paths, directories. intros H.
  apply in_flat_map in H as (dir & Hdir & Hp).
  apply filter_In in Hdir as [Hk Ht].
  apply in_map_iff in Hp as (file & <- & _).
  now exists dir, file.
Qed.

End ExplorerFacts.

(** X10.  The explorer offers no path on which the edit raises: in a tree
    whose root names have no slash, the edit of every nested path that the
    explorer lists completes, with any text. *)
Theorem listed_paths_are_editable :
  forall (t : obj) (p c : jsstring),
    (forall k, In k (map fst t) -> ~ In slash k) ->
    In p (Explorer.nested_paths t) ->
    exists ft, FileTree.edited_tree t p c = Return ft.
Proof.
  intros t p c Hk Hp.
  destruct (nested_paths_inv t p Hp) as (dir & file & -> & Hin & Ht).
  rewrite (edited_tree_nested t dir file c (Hk dir Hin)).
  rewrite (truthy_directory_member _ Ht). simpl. eauto.
Qed.

Lemma listed_paths_are_editable_witness :
  Explorer.nested_paths (FileTree.fileTree FileTree.sample_editor)
    = [u "src/index.js"; u "src/App.js"] /\
  exists ft,
    FileTree.edited_tree (FileTree.fileTree FileTree.sample_editor)
      (u "src/index.js") (u "x") = Return ft.
Proof.
  split; [vm_compute; reflexivity|].
  apply listed_paths_are_editable.
  - intros k [<-|[<-|[]]] H; vm_compute in H; intuition discriminate.
  - vm_compute. auto.
Defined.

(* ================================================================== *)
(** * Tabs and selection *)
(* ================================================================== *)

Section SetFacts.

Import Explorer Collaborators.

Lemma existsb_str_eqb (x : jsstring) (l : list jsstring) :
  existsb (str_eqb x) l = true <-> In x l.
Proof.
  rewrite existsb_exists. split.
  - intros (y & Hy & E). apply str_eqb_eq in E. now subst.
  - intros H. exists x. split; [exact H|apply str_eqb_refl].
Qed.

Lemma existsb_str_eqb_false (x : jsstring) (l : list jsstring) :
  existsb (str_eqb x) l = false <-> ~ In x l.
Proof.
  rewrite <- existsb_str_eqb. destruct (existsb (str_eqb x) l); split;
    intros H; try discriminate; try reflexivity; try congruence;
    exfalso; now apply H.
Qed.

Lemma unique_from_in (seen l : list jsstring) (x : jsstring) :
  In x (unique_from seen l) <-> In x l /\ ~ In x seen.
Proof.
  revert seen. induction l as [|y l IH]; intros seen; simpl.
  - tauto.
  - destruct (existsb (str_eqb y) seen) eqn:E.
    + apply existsb_str_eqb in E. rewrite IH. split.
      * intros [H1 H2]. auto.
      * intros [[->|H1] H2]; [contradiction|auto].
    + apply existsb_str_eqb_false in E. simpl. rewrite IH. simpl. split.
      * intros [->|[H1 H2]]; [auto|]. split; [auto|]. intros H. apply H2. auto.
      * intros [[->|H1] H2]; [auto|].
        destruct (list_eq_dec N.eq_dec y x) as [->|Hne]; [auto|].
        right. split; [exact H1|]. intros [H|H]; [congruence|contradiction].
Qed.

Lemma unique_from_nodup (seen l : list jsstring) :
  NoDup (unique_from seen l).
Proof.
  revert seen. induction l as [|y l IH]; intros seen; simpl.
  - constructor.
  - destruct (existsb (str_eqb y) seen); [apply IH|].
    constructor; [|apply IH].
    rewrite unique_from_in. intros [_ H]. apply H. now left.
Qed.

Lemma unique_from_fixed (seen l : list jsstring) :
  NoDup l -> (forall x, In x l -> ~ In x seen) ->
  unique_from seen l = l.
Proof.
  revert seen. induction l as [|y l IH]; intros seen Hnd Hs; [reflexivity|].
  simpl. inversion Hnd as [|? ? Hy Hl]; subst.
  assert (E : existsb (str_eqb y) seen = false).
  { apply existsb_str_eqb_false. apply Hs. now left. }
  rewrite E. f_equal. apply IH; [exact Hl|].
  intros x Hx [<-|H]; [contradiction|].
  apply (Hs x); [now right|exact H].
Qed.

Lemma unique_from_snoc (seen l : list jsstring) (f : jsstring) :
  unique_from seen (l ++ [f])
  = unique_from seen l ++
    (if existsb (str_eqb f) (seen ++ l) then [] else [f]).
Proof.
  revert seen. induction l as [|y l IH]; intros seen; simpl.
  - rewrite app_nil_r. destruct (existsb (str_eqb f) seen); reflexivity.
  - destruct (existsb (str_eqb y) seen) eqn:E.
    + rewrite IH. f_equal.
      assert (H : existsb (str_eqb f) (seen ++ y :: l)
                  = existsb (str_eqb f) (seen ++ l)).
      { rewrite !existsb_app. simpl.
        destruct (str_eqb f y) eqn:Ef; [|reflexivity].
        apply str_eqb_eq in Ef. subst y. rewrite E. reflexivity. }
      now rewrite H.
    + simpl. rewrite IH. f_equal. f_equal.
      assert (H : existsb (str_eqb f) ((y :: seen) ++ l)
                  = existsb (str_eqb f) (seen ++ y :: l)).
      { simpl. rewrite !existsb_app. simpl.
        destruct (str_eqb f y), (existsb (str_eqb f) seen); reflexivity. }
      now rewrite H.
Qed.

Lemma delete_in (s : list jsstring) (id x : jsstring) :
  In x (delete s id) <-> In x s /\ x <> id.
Proof.
  unfold delete. rewrite filter_In. split.
  - intros [H E]. split; [exact H|]. intros ->.
    now rewrite str_eqb_refl in E.
  - intros [H Hne]. split; [exact H|].
    rewrite str_eqb_neq; [reflexivity|congruence].
Qed.

End SetFacts.

(** X11.  Opening a file never gives a tab twice.  The tabs after a click
    have no duplicate; when they had none before, a file that is open
    leaves them as they are and a new file comes last. *)
Theorem open_file_no_duplicate :
  forall (openFiles : list jsstring) (file : jsstring),
    NoDup (Explorer.open_file openFiles file) /\
    In file (Explorer.open_file openFiles file) /\
    (NoDup openFiles ->
     Explorer.open_file openFiles file
     = if existsb (str_eqb file) openFiles then openFiles
       else openFiles ++ [file]).
Proof.
  intros l f. unfold Explorer.open_file, Explorer.unique.
  split; [apply unique_from_nodup|].
  split.
  - rewrite unique_from_in. split; [|intros []].
    apply in_or_app. right. now left.
  - intros Hnd. rewrite unique_from_snoc.
    rewrite (unique_from_fixed [] l Hnd) by (intros x _ []).
    simpl. destruct (existsb (str_eqb f) l); [apply app_nil_r|reflexivity].
Qed.

Lemma open_file_no_duplicate_witness :
  Explorer.open_file [u "a.js"; u "src/b.js"] (u "a.js")
  = [u "a.js"; u "src/b.js"].
Proof.
  destruct (open_file_no_duplicate [u "a.js"; u "src/b.js"] (u "a.js"))
    as (_ & _ & H).
  rewrite H; [reflexivity|].
  repeat constructor; simpl; intuition discriminate.
Defined.

(** X12.  A click on a user toggles that user and no other: after the
    click the user is selected exactly when it was not before, every other
    user is selected exactly when it was before, and a selection without
    duplicate stays without duplicate. *)
Theorem click_toggles_one_user :
  forall (selected : list jsstring) (id : jsstring),
    let after := Collaborators.handleUserClick selected id in
    (In id after <-> ~ In id selected) /\
    (forall x, x <> id -> (In x after <-> In x selected)) /\
    (NoDup selected -> NoDup after).
Proof.
  intros s id. cbv zeta. unfold Collaborators.handleUserClick,
    Collaborators.add, Collaborators.has.
  destruct (existsb (str_eqb id) s) eqn:E.
  - apply existsb_str_eqb in E. split; [|split].
    + rewrite delete_in. split; [intros [_ H]; congruence|contradiction].
    + intros x Hx. rewrite delete_in. tauto.
    + intros Hnd. unfold Collaborators.delete. now apply NoDup_filter.
  - apply existsb_str_eqb_false in E. split; [|split].
    + split; [auto|]. intros _. apply in_or_app. right. now left.
    + intros x Hx. rewrite in_app_iff. simpl. split; [|auto].
      intros [H|[H|[]]]; [exact H|congruence].
    + intros Hnd. apply NoDup_app; [exact Hnd|repeat constructor; intros []|].
      intros x Hx [<-|[]]. contradiction.
Qed.

Lemma click_toggles_one_user_witness :
  NoDup (Collaborators.handleUserClick [u "u1"; u "u2"] (u "u1")) /\
  In (u "u2") (Collaborators.handleUserClick [u "u1"; u "u2"] (u "u1")).
Proof.
  destruct (click_toggles_one_user [u "u1"; u "u2"] (u "u1"))
    as (_ & Hother & Hnd).
  split.
  - apply Hnd. repeat constructor; simpl; intuition discriminate.
  - apply Hother; [discriminate|]. simpl. auto.
Defined.

(* ================================================================== *)
(** * More about the message handler *)
(* ================================================================== *)

Section HandlerFacts.

Import Workspace.

(** The decoder raises on no value. *)
Lemma sanitize_returns (message : JSValue) :
  exists decoded, sanitizeJsonString message = Return decoded.
Proof.
  unfold sanitizeJsonString. destruct message; try (eexists; reflexivity).
  destruct (Decoder.template_marker s) eqn:Hm.
  - rewrite (short_circuit _ s Hm). eauto.
  - rewrite (past_short_circuit _ s Hm).
    destruct (Json.JSON_parse s); [eauto|].
    destruct (recover_returns s) as (v & _ & -> & _). eauto.
Qed.

(** What the handler of a message of the assistant leaves alone. *)
Lemma createApp_frame (d : Directive) (st : State) :
  fileTree (createApp d st) = fileTree st /\
  messages (createApp d st) = messages st /\
  webContainer (createApp d st) = webContainer st.
Proof.
  unfold createApp. destruct (webContainer st) eqn:E; simpl; auto.
Qed.

Lemma assistant_message_frame (message : JSValue) (st st' : State) :
  assistant_message message st = Return st' ->
  fileTree st' = fileTree st /\
  messages st' = messages st /\
  webContainer st' = webContainer st.
Proof.
  unfold assistant_message.
  destruct (sanitizeJsonString message) as [decoded|e]; simpl; [|discriminate].
  destruct (is_true (opt_member decoded (u "fileTree"))).
  - destruct (lower_includes message (u "react")) as [[|]|e]; simpl;
      try discriminate.
    + intros H. injection H as <-. apply createApp_frame.
    + destruct (lower_includes message (u "express")) as [[|]|e]; simpl;
        try discriminate; intros H; injection H as <-;
        [apply createApp_frame|auto].
  - destruct (webContainer st && truthy (opt_member decoded (u "fileTree")) &&
              typeof_object (opt_member decoded (u "fileTree")));
      intros H; injection H as <-; simpl; auto.
Qed.

Lemma assistant_message_without_sandbox (message : JSValue) (st st' : State) :
  webContainer st = false ->
  assistant_message message st = Return st' -> st' = st.
Proof.
  intros Hw. unfold assistant_message.
  destruct (sanitizeJsonString message) as [decoded|e]; simpl; [|discriminate].
  unfold createReactApp, createExpressApp, createApp. rewrite Hw. simpl.
  destruct (is_true (opt_member decoded (u "fileTree"))).
  - destruct (lower_includes message (u "react")) as [[|]|e]; simpl;
      try discriminate; try congruence.
    destruct (lower_includes message (u "express")) as [[|]|e]; simpl;
      try discriminate; congruence.
  - congruence.
Qed.

(** The handler, by the kind of the message. *)
Lemma onProjectMessage_cases (st : State) (sender message : JSValue) :
  (exists d, recognize sender message = Some d /\
     onProjectMessage st sender message
     = createApp d (setMessages (Working d)
                      (setMessages (Wire sender message) st))) \/
  (recognize sender message = None /\
   is_ai sender = false /\
   onProjectMessage st sender message
   = setMessages (Wire sender message) st) \/
  (recognize sender message = None /\
   is_ai sender = true /\
   onProjectMessage st sender message
   = setMessages (Wire sender message)
       match assistant_message message st with
       | Return st' => st'
       | Throw _ => st
       end).
Proof.
  unfold onProjectMessage.
  destruct (recognize sender message) as [d|] eqn:Hr.
  - left. exists d. split; reflexivity.
  - right. destruct (is_ai sender) eqn:Ha.
    + right. repeat split.
      destruct message; simpl; destruct (assistant_message _ st); reflexivity.
    + left. repeat split. destruct message; reflexivity.
Qed.

End HandlerFacts.

(** X13.  Every message that arrives is appended to the timeline once, in
    every branch of the handler, also when its content cannot be used: the
    timeline after the handler is the timeline before, the message, and,
    for a direct command, the notice that the work has started.  The
    handler itself never changes the tree of the state. *)
Theorem every_message_is_appended :
  forall (st : Workspace.State) (sender message : JSValue),
    let st' := Workspace.onProjectMessage st sender message in
    Workspace.messages st'
      = Workspace.messages st ++
        Workspace.Wire sender message ::
        match Workspace.recognize sender message with
        | Some d => [Workspace.Working d]
        | None => []
        end /\
    Workspace.fileTree st' = Workspace.fileTree st.
Proof.
  intros st sender message. cbv zeta.
  destruct (onProjectMessage_cases st sender message)
    as [(d & Hr & ->)|[(Hr & _ & ->)|(Hr & _ & ->)]]; rewrite Hr.
  - destruct (createApp_frame d
                (Workspace.setMessages (Workspace.Working d)
                   (Workspace.setMessages (Workspace.Wire sender message) st)))
      as (Hf & Hm & _).
    rewrite Hf, Hm. simpl. now rewrite <- app_assoc.
  - split; reflexivity.
  - destruct (Workspace.assistant_message message st) as [st'|e] eqn:Ha.
    + destruct (assistant_message_frame message st st' Ha) as (Hf & Hm & _).
      simpl. now rewrite Hf, Hm.
    + split; reflexivity.
Qed.

(** X16.  A message that is neither from the assistant nor a direct
    command is only appended: it is not decoded, nothing is mounted and no
    template is created, whatever its content. *)
Theorem user_message_only_appends :
  forall (st : Workspace.State) (sender message : JSValue),
    Workspace.is_ai sender = false ->
    Workspace.recognize sender message = None ->
    Workspace.onProjectMessage st sender message
    = Workspace.setMessages (Workspace.Wire sender message) st.
Proof.
  intros st sender message Ha Hr.
  destruct (onProjectMessage_cases st sender message)
    as [(d & Hr' & _)|[(_ & _ & H)|(_ & Ha' & _)]]; congruence.
Qed.

Lemma user_message_only_appends_witness :
  Workspace.onProjectMessage Workspace.idle (JStr (u "user-1"))
    Workspace.first_message
  = Workspace.setMessages
      (Workspace.Wire (JStr (u "user-1")) Workspace.first_message)
      Workspace.idle.
Proof.
  apply user_message_only_appends; vm_compute; reflexivity.
Defined.

Section SandboxFacts.

Import Workspace.

(** Without a sandbox and with no mount in flight, a step changes the
    timeline at most. *)
Lemma step_without_sandbox (st : State) (e : Event) :
  webContainer st = false -> pending st = [] ->
  webContainer (step st e) = false /\
  pending (step st e) = [] /\
  fileTree (step st e) = fileTree st /\
  mounted (step st e) = mounted st.
Proof.
  intros Hw Hp. destruct e as [sender message|i ok]; simpl.
  - destruct (onProjectMessage_cases st sender message)
      as [(d & _ & ->)|[(_ & _ & ->)|(_ & _ & ->)]].
    + unfold createApp. simpl. rewrite Hw. simpl. auto.
    + simpl. auto.
    + destruct (assistant_message message st) as [st'|err] eqn:Ha.
      * rewrite (assistant_message_without_sandbox message st st' Hw Ha).
        simpl. auto.
      * simpl. auto.
  - unfold settle. rewrite Hp. destruct i; simpl; auto.
Qed.

Lemma includes_map (f : code_unit -> code_unit) (s sub : jsstring) :
  includes s sub = true -> includes (map f s) (map f sub) = true.
Proof.
  intros H. apply includes_inv in H as (pre & post & ->).
  rewrite !map_app. apply includes_app.
Qed.

End SandboxFacts.

(** X14.  When the boot of the sandbox fails, [getWebContainer] gives
    [null], the state of the component stays without a sandbox, and from
    then on no message and no command mounts anything, for the handler of
    the first render and for the handler of a later run of the effect:
    through every series of events the tree of the state and the list of
    [mount] calls stay as they were, and no promise is ever pending. *)
Theorem no_sandbox_no_mount :
  forall (C : Type) (boot : completion C) (st : Workspace.State)
         (again : bool) (trace : list Workspace.Event),
    Container.getWebContainer boot = None ->
    Workspace.pending st = [] ->
    let booted :=
      Container.setWebContainer (Container.getWebContainer boot)
                                (Container.first_render st) in
    let started :=
      Container.handler
        (if again then Container.effect booted else booted) in
    Container.webContainer booted = false /\
    Workspace.fileTree (Workspace.run started trace) = Workspace.fileTree st /\
    Workspace.mounted (Workspace.run started trace) = Workspace.mounted st /\
    Workspace.pending (Workspace.run started trace) = [].
Proof.
  intros C boot st again trace Hb Hp booted started.
  subst started booted. rewrite Hb.
  split; [reflexivity|].
  set (s0 := Container.handler _).
  assert (H0 : Workspace.webContainer s0 = false /\
               Workspace.pending s0 = [] /\
               Workspace.fileTree s0 = Workspace.fileTree st /\
               Workspace.mounted s0 = Workspace.mounted st).
  { subst s0. destruct again; simpl; auto. }
  clearbody s0. revert s0 H0.
  induction trace as [|e trace IH]; intros s0 (Hw & Hq & Hf & Hm).
  - simpl. auto.
  - change (Workspace.run s0 (e :: trace))
      with (Workspace.run (Workspace.step s0 e) trace).
    destruct (step_without_sandbox s0 e Hw Hq) as (Hw' & Hq' & Hf' & Hm').
    apply IH. repeat split; congruence.
Qed.

Lemma no_sandbox_no_mount_witness :
  Workspace.mounted
    (Workspace.run
       (Container.handler
          (Container.setWebContainer
             (Container.getWebContainer (Throw RangeError : completion unit))
             (Container.first_render Container.start)))
       [Workspace.Receive (JStr (u "user-1"))
          (JStr (u "@ai create react app"));
        Workspace.Receive Workspace.assistant Workspace.first_message])
  = [].
Proof.
  apply (no_sandbox_no_mount unit (Throw RangeError) Container.start false).
  - reflexivity.
  - reflexivity.
Defined.

(** The handler of the first render after a boot that gave a sandbox: the
    state of the component has the sandbox, the handler does not see it,
    and a message with a tree is appended and nothing is mounted. *)
Example first_handler_sees_no_sandbox :
  let booted :=
    Container.setWebContainer (Container.getWebContainer (Return tt))
                              (Container.first_render Container.start) in
  let after :=
    Workspace.run (Container.handler booted)
      [Workspace.Receive Workspace.assistant Workspace.first_message] in
  Container.webContainer booted = true /\
  Workspace.mounted after = [] /\
  Workspace.pending after = [] /\
  Workspace.fileTree after = Workspace.fileTree Container.start /\
  List.length (Workspace.messages after) = 1.
Proof. vm_compute. repeat split. Qed.

(** X15.  For a payload of the assistant with the marker of a file tree
    and a template word, the handler mounts a template chosen by the words
    of the payload, never the tree that the payload holds: the React
    template when the lower-cased payload has [react], in particular when
    the payload has it, else the Express template when it has [express],
    else nothing. *)
Theorem flagged_payload_mounts_template :
  forall (st : Workspace.State) (s : jsstring),
    Decoder.template_marker s = true ->
    Workspace.onProjectMessage st Workspace.assistant (JStr s)
      = Workspace.setMessages (Workspace.Wire Workspace.assistant (JStr s))
          (if includes (toLowerCase s) (u "react")
           then Workspace.createReactApp st
           else if includes (toLowerCase s) (u "express")
           then Workspace.createExpressApp st
           else st) /\
    (includes s (u "react") = true ->
     Workspace.onProjectMessage st Workspace.assistant (JStr s)
       = Workspace.setMessages (Workspace.Wire Workspace.assistant (JStr s))
           (Workspace.createReactApp st)).
Proof.
  intros st s Hm.
  assert (H : Workspace.onProjectMessage st Workspace.assistant (JStr s)
      = Workspace.setMessages (Workspace.Wire Workspace.assistant (JStr s))
          (if includes (toLowerCase s) (u "react")
           then Workspace.createReactApp st
           else if includes (toLowerCase s) (u "express")
           then Workspace.createExpressApp st
           else st)).
  { unfold Workspace.onProjectMessage.
    rewrite (recognize_assistant (JStr s)).
    change (negb (Workspace.is_ai Workspace.assistant)) with false.
    cbv iota.
    unfold Workspace.assistant_message.
    unfold sanitizeJsonString. rewrite (short_circuit _ s Hm).
    simpl. destruct (includes (toLowerCase s) (u "react")); [reflexivity|].
    simpl. destruct (includes (toLowerCase s) (u "express")); reflexivity. }
  split; [exact H|].
  intros Hr. rewrite H.
  assert (Hl : includes (toLowerCase s) (u "react") = true)
    by exact (includes_map lower_unit s (u "react") Hr).
  now rewrite Hl.
Qed.

Lemma flagged_payload_mounts_template_witness :
  Workspace.mounted
    (Workspace.onProjectMessage Workspace.idle Workspace.assistant
       (JStr (js "{'text':'app','fileTree':{'x.js':{'file':{'contents':'react'}}}}")))
  = [Workspace.Template Workspace.ReactScaffold].
Proof.
  destruct (flagged_payload_mounts_template Workspace.idle
              (js "{'text':'app','fileTree':{'x.js':{'file':{'contents':'react'}}}}"))
    as [_ H].
  - vm_compute. reflexivity.
  - rewrite H; [reflexivity|]. vm_compute. reflexivity.
Defined.

(** X20.  In the earlier screen the tree of the state follows the
    requests: a message of the assistant that is decoded to a value with a
    truthy [fileTree] sets the tree at once, also without a sandbox, and
    mounts it when the sandbox is there; of two such messages the tree of
    the second is the tree of the state. *)
Theorem legacy_tree_follows_request :
  forall (st : LegacyWorkspace.State) (m1 m2 d1 d2 : JSValue),
    LegacyDecoder.sanitizeJsonString m1 = Return d1 ->
    LegacyDecoder.sanitizeJsonString m2 = Return d2 ->
    truthy (opt_member d1 (u "fileTree")) = true ->
    truthy (opt_member d2 (u "fileTree")) = true ->
    let st1 := LegacyWorkspace.onProjectMessage st Workspace.assistant m1 in
    let st2 := LegacyWorkspace.onProjectMessage st1 Workspace.assistant m2 in
    LegacyWorkspace.fileTree st1 = opt_member d1 (u "fileTree") /\
    LegacyWorkspace.fileTree st2 = opt_member d2 (u "fileTree") /\
    LegacyWorkspace.messages st2
      = LegacyWorkspace.messages st ++
        [Workspace.Wire Workspace.assistant m1;
         Workspace.Wire Workspace.assistant m2] /\
    LegacyWorkspace.mounted st2
      = LegacyWorkspace.mounted st ++
        (if LegacyWorkspace.webContainer st
         then [opt_member d1 (u "fileTree"); opt_member d2 (u "fileTree")]
         else []).
Proof.
  intros st m1 m2 d1 d2 H1 H2 T1 T2 st1 st2. subst st2 st1.
  unfold LegacyWorkspace.onProjectMessage.
  change (Workspace.is_ai Workspace.assistant) with true. cbv iota.
  rewrite H1, H2, T1, T2. rewrite !andb_true_r.
  destruct (LegacyWorkspace.webContainer st) eqn:Hw; simpl;
    rewrite ?Hw; simpl; rewrite <- ?app_assoc, ?app_nil_r;
    repeat split; reflexivity.
Qed.

Lemma legacy_tree_follows_request_witness :
  LegacyWorkspace.fileTree
    (LegacyWorkspace.onProjectMessage
       (LegacyWorkspace.onProjectMessage
          {| LegacyWorkspace.fileTree := JObj [];
             LegacyWorkspace.messages := [];
             LegacyWorkspace.webContainer := false;
             LegacyWorkspace.mounted := [] |}
          Workspace.assistant Workspace.first_message)
       Workspace.assistant Workspace.second_message)
  = Workspace.second_tree.
Proof.
  destruct (legacy_tree_follows_request
              {| LegacyWorkspace.fileTree := JObj [];
                 LegacyWorkspace.messages := [];
                 LegacyWorkspace.webContainer := false;
                 LegacyWorkspace.mounted := [] |}
              Workspace.first_message Workspace.second_message
              (JObj [(u "text", JStr (u "first"));
                     (u "fileTree", Workspace.first_tree)])
              (JObj [(u "text", JStr (u "second"));
                     (u "fileTree", Workspace.second_tree)]))
    as (_ & H & _).
  - vm_compute. reflexivity.
  - vm_compute. reflexivity.
  - reflexivity.
  - reflexivity.
  - exact H.
Defined.

(** A number that is read as zero is no tree: the state keeps its tree. *)
Example legacy_zero_is_no_tree :
  let st := {| LegacyWorkspace.fileTree := JObj [];
               LegacyWorkspace.messages := [];
               LegacyWorkspace.webContainer := false;
               LegacyWorkspace.mounted := [] |} in
  LegacyWorkspace.fileTree
    (LegacyWorkspace.onProjectMessage st Workspace.assistant
       (JStr (js "{'text':'t','fileTree':1e-400}")))
  = JObj [].
Proof. vm_compute. reflexivity. Qed.

(* ================================================================== *)
(** * The text of the last tier *)
(* ================================================================== *)

Section ExcerptFacts.

Import Decoder.

Lemma excerpt_short (s : jsstring) :
  List.length s <= 300 -> excerpt s = s.
Proof.
  intros H. unfold excerpt.
  destruct (Nat.ltb_spec 300 (List.length s)); [lia|reflexivity].
Qed.

Lemma excerpt_long (s : jsstring) :
  300 < List.length s -> excerpt s = firstn 300 s ++ u "...".
Proof.
  intros H. unfold excerpt, substring0.
  destruct (Nat.ltb_spec 300 (List.length s)); [reflexivity|lia].
Qed.

Lemma excerpt_length (s : jsstring) : List.length (excerpt s) <= 303.
Proof.
  destruct (Nat.le_gt_cases (List.length s) 300) as [H|H].
  - rewrite (excerpt_short s H). lia.
  - rewrite (excerpt_long s H), length_app, length_firstn.
    change (List.length (u "...")) with 3. lia.
Qed.

Lemma firstn_app_exact (n : nat) (s t : jsstring) :
  n <= List.length s -> firstn n (firstn n s ++ t) = firstn n s.
Proof.
  intros H. rewrite firstn_app, length_firstn, Nat.min_l by exact H.
  rewrite Nat.sub_diag, firstn_O, app_nil_r, firstn_firstn.
  now rewrite Nat.min_id.
Qed.

Lemma excerpt_prefix (s : jsstring) :
  firstn 300 (excerpt s) = firstn 300 s.
Proof.
  destruct (Nat.le_gt_cases (List.length s) 300) as [H|H].
  - now rewrite (excerpt_short s H).
  - rewrite (excerpt_long s H). apply firstn_app_exact. lia.
Qed.

End ExcerptFacts.

(** X1.  A text that cannot be decoded gives a message of bounded size:
    when [JSON.parse] raises, the pattern of the text field finds nothing
    or an empty text, and the marker of a file tree is absent, the value
    is the text object of the last tier, whose text has at most 347 code
    units whatever the size of the input; its excerpt starts with the
    first 300 code units of the input and is the whole input when that has
    at most 300. *)
Theorem undecodable_text_is_bounded :
  forall (parse : jsstring -> completion JSValue) (s : jsstring) (e : JSError),
    parse s = Throw e ->
    Decoder.match_text s = None \/ Decoder.match_text s = Some [] ->
    includes s (quoted "fileTree") = false ->
    Decoder.sanitizeJsonString_with parse (JStr s)
      = Return (Decoder.text_object (Decoder.fallback_text s)) /\
    List.length (Decoder.fallback_text s) <= 347 /\
    firstn 300 (Decoder.excerpt s) = firstn 300 s /\
    (List.length s <= 300 -> Decoder.excerpt s = s).
Proof.
  intros parse s e Hp Hm Hf.
  split; [|split; [|split]].
  - rewrite (past_short_circuit parse s), Hp.
    + unfold Decoder.recover. rewrite Hf.
      destruct Hm as [-> | ->]; reflexivity.
    + unfold Decoder.template_marker. now rewrite Hf.
  - unfold Decoder.fallback_text. rewrite !length_app.
    pose proof (excerpt_length s).
    change (List.length (u "AI response (JSON parsing failed):")) with 34.
    change (List.length Decoder.fence) with 3. simpl List.length. lia.
  - apply excerpt_prefix.
  - apply excerpt_short.
Qed.

Lemma undecodable_text_is_bounded_witness :
  sanitizeJsonString (JStr (repeat 120%N 1000))
    = Return (Decoder.text_object (Decoder.fallback_text (repeat 120%N 1000)))
  /\ List.length (Decoder.fallback_text (repeat 120%N 1000)) <= 347.
Proof.
  destruct (undecodable_text_is_bounded Json.JSON_parse (repeat 120%N 1000)
              SyntaxError) as (H1 & H2 & _).
  - vm_compute. reflexivity.
  - left. vm_compute. reflexivity.
  - vm_compute. reflexivity.
  - split; [exact H1|exact H2].
Defined.

(* ================================================================== *)
(** * The balance of braces in the earlier decoder *)
(* ================================================================== *)

Section BalanceFacts.

Import LegacyDecoder.

Lemma count_from (opening closing : code_unit) (s : jsstring) (n : Z) :
  fold_left
    (fun n c =>
       let n1 := if N.eqb c opening then (n + 1)%Z else n in
       if N.eqb c closing then (n1 - 1)%Z else n1)
    s n
  = (n + count_units opening closing s)%Z.
Proof.
  unfold count_units.
  revert n. induction s as [|c s IH]; intros n; simpl; [lia|].
  etransitivity; [apply IH|]. symmetry.
  etransitivity; [apply f_equal, IH|].
  destruct (N.eqb c opening), (N.eqb c closing); lia.
Qed.

Lemma count_app (opening closing : code_unit) (a b : jsstring) :
  count_units opening closing (a ++ b)
  = (count_units opening closing a + count_units opening closing b)%Z.
Proof.
  unfold count_units at 1. rewrite fold_left_app. apply count_from.
Qed.

Lemma count_repeat_closing (opening closing : code_unit) (k : nat) :
  N.eqb closing opening = false ->
  count_units opening closing (repeat closing k) = (- Z.of_nat k)%Z.
Proof.
  intros H. induction k as [|k IH]; [reflexivity|].
  change (repeat closing (S k)) with ([closing] ++ repeat closing k).
  rewrite count_app, IH. unfold count_units. simpl.
  rewrite H, N.eqb_refl. lia.
Qed.

Lemma count_repeat_other (opening closing x : code_unit) (k : nat) :
  N.eqb x opening = false -> N.eqb x closing = false ->
  count_units opening closing (repeat x k) = 0%Z.
Proof.
  intros H1 H2. induction k as [|k IH]; [reflexivity|].
  change (repeat x (S k)) with ([x] ++ repeat x k).
  rewrite count_app, IH. unfold count_units. simpl.
  now rewrite H1, H2.
Qed.

End BalanceFacts.

(** X4.  After the balancing of the earlier decoder no brace and no
    bracket is left open: in the balanced text the closing braces are at
    least as many as the opening ones, and so for the brackets; the text
    is a prefix of the balanced text, and a text without an open brace or
    bracket is left as it is. *)
Theorem balance_closes_everything :
  forall s : jsstring,
    (LegacyDecoder.count_units 123%N 125%N (LegacyDecoder.balance s) <= 0)%Z /\
    (LegacyDecoder.count_units 91%N 93%N (LegacyDecoder.balance s) <= 0)%Z /\
    (exists closers, LegacyDecoder.balance s = s ++ closers) /\
    ((LegacyDecoder.count_units 123%N 125%N s <= 0)%Z ->
     (LegacyDecoder.count_units 91%N 93%N s <= 0)%Z ->
     LegacyDecoder.balance s = s).
Proof.
  intros s. unfold LegacyDecoder.balance.
  set (b := LegacyDecoder.count_units 123%N 125%N s).
  set (k := LegacyDecoder.count_units 91%N 93%N s).
  split; [|split; [|split]].
  - rewrite !count_app. fold b.
    rewrite (count_repeat_closing 123%N 125%N) by reflexivity.
    rewrite (count_repeat_other 123%N 125%N 93%N) by reflexivity. lia.
  - rewrite !count_app. fold k.
    rewrite (count_repeat_other 91%N 93%N 125%N) by reflexivity.
    rewrite (count_repeat_closing 91%N 93%N) by reflexivity. lia.
  - eexists. reflexivity.
  - intros Hb Hk.
    replace (Z.to_nat b) with 0%nat by lia.
    replace (Z.to_nat k) with 0%nat by lia.
    simpl. now rewrite app_nil_r.
Qed.

Lemma balance_closes_everything_witness :
  LegacyDecoder.balance (js "{'a': [1, 2]}") = js "{'a': [1, 2]}".
Proof.
  apply (proj2 (proj2 (proj2 (balance_closes_everything _))));
    vm_compute; discriminate.
Defined.

(* ================================================================== *)
(** * Writing and reading back the messages of the screen *)
(* ================================================================== *)

Section RoundTrip.

Import Json Render.

Lemma hex_value_hex_digit (n : N) :
  (n < 16)%N -> hex_value (hex_digit n) = Some n.
Proof.
  intros H. rewrite <- (N2Nat.id n).
  assert (Hk : N.to_nat n < 16) by lia.
  destruct (N.to_nat n) as [|k]; [reflexivity|].
  do 15 (destruct k as [|k]; [reflexivity|]). lia.
Qed.

Lemma nibbles (c : N) :
  (c < 65536)%N ->
  (((c / 4096) mod 16) * 4096 + ((c / 256) mod 16) * 256 +
   ((c / 16) mod 16) * 16 + c mod 16 = c)%N.
Proof.
  intros H.
  pose proof (N.div_mod c 16 ltac:(discriminate)) as H0.
  pose proof (N.div_mod (c / 16) 16 ltac:(discriminate)) as H1.
  pose proof (N.div_mod (c / 16 / 16) 16 ltac:(discriminate)) as H2.
  rewrite (N.Div0.div_div c 16 16) in H1, H2.
  rewrite (N.Div0.div_div c (16 * 16) 16) in H2.
  change (16 * 16)%N with 256%N in *. change (256 * 16)%N with 4096%N in *.
  assert (H3 : (c / 4096 < 16)%N).
  { apply N.Div0.div_lt_upper_bound. exact H. }
  rewrite (N.mod_small (c / 4096) 16 H3).
  lia.
Qed.

Lemma step_string_plain (k : bool) (acc : jsstring) (stk : list Frame)
    (c : code_unit) :
  N.eqb c dquote = false -> N.eqb c backslash = false ->
  N.ltb c 32 = false ->
  step (MString k acc SChars, stk) c = (MString k (c :: acc) SChars, stk).
Proof. intros H1 H2 H3. simpl. now rewrite H1, H2, H3. Qed.

Lemma run_unicode_escape (k : bool) (acc : jsstring) (stk : list Frame)
    (c : code_unit) :
  (c < 65536)%N ->
  fold_left step (unicode_escape c) (MString k acc SChars, stk)
  = (MString k (c :: acc) SChars, stk).
Proof.
  intros H. unfold unicode_escape.
  cbn [fold_left]. 
  change (step (MString k acc SChars, stk) backslash)
    with (MString k acc SEscape, stk).
  change (step (MString k acc SEscape, stk) 117%N)
    with (MString k acc (SHex []), stk).
  assert (Hd : forall x, (x mod 16 < 16)%N)
    by (intros x; apply N.mod_upper_bound; discriminate).
  assert (Hs : forall ds d,
    step (MString k acc (SHex ds), stk) (hex_digit d)
    = match hex_value (hex_digit d) with
      | Some v =>
          match ds with
          | [d3; d2; d1] =>
              (MString k ((d1 * 4096 + d2 * 256 + d3 * 16 + v)%N :: acc) SChars,
               stk)
          | _ => (MString k acc (SHex (v :: ds)), stk)
          end
      | None => (MError, stk)
      end) by reflexivity.
  rewrite Hs, (hex_value_hex_digit _ (Hd _)).
  rewrite Hs, (hex_value_hex_digit _ (Hd _)).
  rewrite Hs, (hex_value_hex_digit _ (Hd _)).
  rewrite Hs, (hex_value_hex_digit _ (Hd _)).
  now rewrite (nibbles c H).
Qed.

Lemma run_quote_unit (k : bool) (acc : jsstring) (stk : list Frame)
    (c : code_unit) :
  fold_left step (quote_unit c) (MString k acc SChars, stk)
  = (MString k (c :: acc) SChars, stk).
Proof.
  unfold quote_unit.
  destruct (N.eqb_spec c 8) as [->|_]; [reflexivity|].
  destruct (N.eqb_spec c 9) as [->|_]; [reflexivity|].
  destruct (N.eqb_spec c 10) as [->|_]; [reflexivity|].
  destruct (N.eqb_spec c 12) as [->|_]; [reflexivity|].
  destruct (N.eqb_spec c 13) as [->|_]; [reflexivity|].
  destruct (N.eqb c dquote) eqn:Hq.
  { apply N.eqb_eq in Hq. subst c. reflexivity. }
  destruct (N.eqb c backslash) eqn:Hb.
  { apply N.eqb_eq in Hb. subst c. reflexivity. }
  destruct (N.ltb c 32 || is_high_surrogate c || is_low_surrogate c) eqn:He.
  - apply run_unicode_escape.
    apply orb_true_iff in He as [He|He].
    + apply orb_true_iff in He as [He|He].
      * apply N.ltb_lt in He. lia.
      * unfold is_high_surrogate in He. apply andb_true_iff in He as [_ He].
        apply N.leb_le in He. lia.
    + unfold is_low_surrogate in He. apply andb_true_iff in He as [_ He].
      apply N.leb_le in He. lia.
  - apply orb_false_iff in He as [He _].
    apply orb_false_iff in He as [He _].
    cbn [fold_left]. now apply step_string_plain.
Qed.

Lemma run_surrogate_pair (k : bool) (acc : jsstring) (stk : list Frame)
    (c d : code_unit) :
  is_high_surrogate c = true -> is_low_surrogate d = true ->
  fold_left step [c; d] (MString k acc SChars, stk)
  = (MString k (d :: c :: acc) SChars, stk).
Proof.
  unfold is_high_surrogate, is_low_surrogate. intros Hc Hd.
  apply andb_true_iff in Hc as [Hc _]. apply andb_true_iff in Hd as [Hd _].
  apply N.leb_le in Hc, Hd.
  cbn [fold_left].
  rewrite step_string_plain.
  - apply step_string_plain.
    + apply N.eqb_neq. unfold dquote. lia.
    + apply N.eqb_neq. unfold backslash. lia.
    + apply N.ltb_ge. lia.
  - apply N.eqb_neq. unfold dquote. lia.
  - apply N.eqb_neq. unfold backslash. lia.
  - apply N.ltb_ge. lia.
Qed.

(** The parser reads the quoted characters back. *)
Lemma run_quote_units (k : bool) (stk : list Frame) (t : jsstring) :
  (forall acc,
     fold_left step (quote_units t) (MString k acc SChars, stk)
     = (MString k (rev t ++ acc) SChars, stk)) /\
  (forall c acc,
     fold_left step (quote_units (c :: t)) (MString k acc SChars, stk)
     = (MString k (rev (c :: t) ++ acc) SChars, stk)).
Proof.
  induction t as [|d t [IH0 IH1]].
  - split; [reflexivity|]. intros c acc. apply run_quote_unit.
  - split; [exact (IH1 d)|].
    intros c acc.
    change (quote_units (c :: d :: t))
      with (if is_high_surrogate c && is_low_surrogate d
            then c :: d :: quote_units t
            else quote_unit c ++ quote_units (d :: t)).
    destruct (is_high_surrogate c && is_low_surrogate d) eqn:Hp.
    + apply andb_true_iff in Hp as [Hc Hd].
      change (c :: d :: quote_units t) with ([c; d] ++ quote_units t).
      rewrite fold_left_app, (run_surrogate_pair k acc stk c d Hc Hd), IH0.
      simpl. now rewrite <- !app_assoc.
    + rewrite fold_left_app, run_quote_unit, (IH1 d).
      simpl. now rewrite <- !app_assoc.
Qed.

Lemma parse_stringify_text (t : jsstring) :
  JSON_parse (stringify_text t) = Return (Decoder.text_object t).
Proof.
  unfold JSON_parse, stringify_text. rewrite !fold_left_app.
  change (fold_left step (js "{'text':'") (MValue, []))
    with (MString false [] SChars, [FObj [] (Some (u "text"))]).
  rewrite (proj1 (run_quote_units false _ t) []).
  rewrite app_nil_r. simpl. rewrite rev_involutive. reflexivity.
Qed.

End RoundTrip.

(** X2. A message that the screen writes itself, [JSON.stringify] of an
    object with one text, is decoded to that object and shown as that text,
    whatever characters the text has, as long as the written message does
    not pass the marker test of the first tier. *)
Theorem written_text_is_shown (t : jsstring) :
  t <> [] ->
  Decoder.template_marker (Render.stringify_text t) = false ->
  sanitizeJsonString (JStr (Render.stringify_text t))
  = Return (Decoder.text_object t) /\
  Render.WriteAiMessage (JStr (Render.stringify_text t))
  = Render.Markdown (JStr t).
Proof.
  intros Ht Hm.
  assert (Hs : sanitizeJsonString (JStr (Render.stringify_text t))
               = Return (Decoder.text_object t)).
  { unfold sanitizeJsonString.
    rewrite (past_short_circuit _ _ Hm), parse_stringify_text. reflexivity. }
  split; [exact Hs|].
  unfold Render.WriteAiMessage. rewrite Hs.
  destruct t as [|c t]; [congruence|]. reflexivity.
Qed.

Lemma written_text_is_shown_witness :
  Render.WriteAiMessage
    (JStr (Render.stringify_text (u "Creating a React application...")))
  = Render.Markdown (JStr (u "Creating a React application...")).
Proof.
  apply (written_text_is_shown (u "Creating a React application...")).
  - discriminate.
  - vm_compute. reflexivity.
Defined.

(** X3. [WriteAiMessage] never reaches its [catch]: a falsy message gives
    the placeholder, and every other message gives Markdown whose
    children are truthy. *)
Theorem render_never_fails (message : JSValue) :
  (truthy message = false /\ Render.WriteAiMessage message = Render.NoMessage)
  \/
  (truthy message = true /\
   exists children,
     Render.WriteAiMessage message = Render.Markdown children /\
     truthy children = true).
Proof.
  unfold Render.WriteAiMessage.
  destruct (truthy message); [right|left; split; reflexivity].
  split; [reflexivity|]. cbn [negb].
  destruct (sanitize_returns message) as [decoded ->].
  destruct (truthy (opt_member decoded (u "text"))) eqn:Ht; eauto.
Qed.

(* ================================================================== *)
(** * Sending *)
(* ================================================================== *)

Section SendFacts.

Import Chat.

Lemma trim_start_blank (s : jsstring) :
  forallb is_space s = true -> trim_start s = [].
Proof.
  induction s as [|c s IH]; [reflexivity|]. cbn [forallb trim_start].
  intros H. apply andb_true_iff in H as [-> H]. auto.
Qed.

Lemma trim_start_empty (s : jsstring) :
  trim_start s = [] -> forallb is_space s = true.
Proof.
  induction s as [|c s IH]; [reflexivity|]. cbn [forallb trim_start].
  destruct (is_space c); [exact IH|discriminate].
Qed.

Lemma trim_start_head (s : jsstring) (c : code_unit) (r : jsstring) :
  trim_start s = c :: r -> is_space c = false.
Proof.
  induction s as [|d s IH]; [discriminate|]. cbn [trim_start].
  destruct (is_space d) eqn:Hd; [exact IH|].
  intros H. injection H as <- _. exact Hd.
Qed.

(** [trim] leaves nothing exactly of the strings of white space. *)
Lemma trim_blank (s : jsstring) :
  trim s = [] <-> forallb is_space s = true.
Proof.
  unfold trim. split.
  - intros H.
    destruct (trim_start s) as [|c r] eqn:Hs; [now apply trim_start_empty|].
    apply (f_equal (@rev _)) in H. rewrite rev_involutive in H.
    apply trim_start_empty in H. rewrite forallb_forall in H.
    pose proof (trim_start_head s c r Hs) as Hh.
    rewrite (H c) in Hh; [discriminate|].
    apply in_rev. rewrite rev_involutive. now left.
  - intros H. now rewrite (trim_start_blank s H).
Qed.

Lemma send_unconnected (sc : Screen) :
  connected (channel sc) = false ->
  Channel.sendMessage (u "project-message") (channel sc)
  = (Channel.log Channel.CannotSend (channel sc), false).
Proof.
  unfold connected, Channel.sendMessage.
  destruct (Channel.socket (channel sc)) as [s|]; [|reflexivity].
  now intros ->.
Qed.

Lemma initialize_unconnected (p : jsstring) (m : Channel.ChannelState) :
  connected m = false ->
  connected (fst (Channel.initializeSocket p m)) = false /\
  Channel.emitted (fst (Channel.initializeSocket p m)) = Channel.emitted m.
Proof.
  intros H. destruct p as [|c p]; [split; [exact H|reflexivity]|].
  unfold Channel.initializeSocket, Channel.close.
  unfold connected in H.
  destruct (Channel.socket m) as [s|]; [rewrite H|]; split; reflexivity.
Qed.

End SendFacts.

(** X17. A message of white space only is not sent: [send] changes
    nothing, neither the socket module nor the screen. *)
Theorem blank_input_sends_nothing (sc : Chat.Screen) :
  forallb is_space (Chat.message sc) = true -> Chat.send sc = sc.
Proof.
  intros H. unfold Chat.send.
  now rewrite (proj2 (trim_blank (Chat.message sc)) H).
Qed.

Lemma blank_input_sends_nothing_witness :
  let sc := {| Chat.channel := Channel.initial;
               Chat.messages := [];
               Chat.message := u "  ";
               Chat.socketError := false;
               Chat.project_id := u "p1";
               Chat.user_id := JStr (u "u1") |} in
  Chat.send sc = sc.
Proof.
  intros sc. apply (blank_input_sends_nothing sc). reflexivity.
Defined.

(** X18. On a connected socket a message that is not blank is emitted
    once as [project-message] and appended to the timeline under the
    user as it was typed, white space included; the input is cleared and
    the banner is left as it is. *)
Theorem send_when_connected (sc : Chat.Screen) :
  Chat.connected (Chat.channel sc) = true ->
  forallb is_space (Chat.message sc) = false ->
  let sc' := Chat.send sc in
  Channel.emitted (Chat.channel sc')
  = Channel.emitted (Chat.channel sc) ++ [u "project-message"] /\
  Chat.messages sc'
  = Chat.messages sc
    ++ [Workspace.Wire (Chat.user_id sc) (JStr (Chat.message sc))] /\
  Chat.message sc' = [] /\
  Chat.socketError sc' = Chat.socketError sc /\
  Channel.socket (Chat.channel sc') = Channel.socket (Chat.channel sc) /\
  Channel.listeners (Chat.channel sc') = Channel.listeners (Chat.channel sc).
Proof.
  intros Hc Hb. unfold Chat.send.
  destruct (Chat.trim (Chat.message sc)) as [|c r] eqn:Ht.
  { apply trim_blank in Ht. congruence. }
  unfold Chat.connected in Hc. unfold Channel.sendMessage.
  destruct (Channel.socket (Chat.channel sc)) as [s|] eqn:Hs; [|discriminate].
  rewrite Hc. cbn. repeat split.
Qed.

Lemma send_when_connected_witness :
  let sc := {| Chat.channel :=
                 Channel.run Channel.initial
                   [Channel.Initialize (u "p1"); Channel.Connect];
               Chat.messages := [];
               Chat.message := u " hello";
               Chat.socketError := false;
               Chat.project_id := u "p1";
               Chat.user_id := JStr (u "u1") |} in
  Chat.messages (Chat.send sc)
  = [Workspace.Wire (JStr (u "u1")) (JStr (u " hello"))].
Proof.
  intros sc.
  exact (proj1 (proj2 (send_when_connected sc eq_refl eq_refl))).
Defined.

(** X19. Without a connected socket nothing is ever sent, however often
    the user tries: every [send] keeps the timeline and the input, sets
    the banner, and leaves a socket that is not connected and, when the
    project has an identifier, has lost its listeners. *)
Theorem send_unconnected_never_emits (sc : Chat.Screen) (n : nat) :
  Chat.connected (Chat.channel sc) = false ->
  forallb is_space (Chat.message sc) = false ->
  let sc' := Nat.iter (S n) Chat.send sc in
  Channel.emitted (Chat.channel sc') = Channel.emitted (Chat.channel sc) /\
  Chat.messages sc' = Chat.messages sc /\
  Chat.message sc' = Chat.message sc /\
  Chat.socketError sc' = true /\
  Chat.connected (Chat.channel sc') = false /\
  (Chat.project_id sc <> [] ->
   Channel.listeners (Chat.channel sc') = []).
Proof.
  intros Hc Hb.
  assert (Hone : forall s,
    Chat.connected (Chat.channel s) = false ->
    forallb is_space (Chat.message s) = false ->
    Channel.emitted (Chat.channel (Chat.send s))
    = Channel.emitted (Chat.channel s) /\
    Chat.messages (Chat.send s) = Chat.messages s /\
    Chat.message (Chat.send s) = Chat.message s /\
    Chat.socketError (Chat.send s) = true /\
    Chat.connected (Chat.channel (Chat.send s)) = false /\
    Chat.project_id (Chat.send s) = Chat.project_id s /\
    (Chat.project_id s <> [] ->
     Channel.listeners (Chat.channel (Chat.send s)) = [])).
  { intros s Hs Hm. unfold Chat.send.
    destruct (Chat.trim (Chat.message s)) as [|c r] eqn:Ht.
    { apply trim_blank in Ht. congruence. }
    rewrite (send_unconnected s Hs).
    assert (Hl : Chat.connected (Channel.log Channel.CannotSend (Chat.channel s))
                 = false) by exact Hs.
    destruct (initialize_unconnected (Chat.project_id s) _ Hl) as [H1 H2].
    cbn [Chat.channel Chat.messages Chat.message Chat.socketError
         Chat.project_id].
    rewrite H2. repeat split; try assumption.
    intros Hp. destruct (Chat.project_id s); [congruence|reflexivity]. }
  induction n as [|n IH].
  - cbn [Nat.iter nat_rect]. destruct (Hone sc Hc Hb) as (?&?&?&?&?&?&?).
    repeat split; assumption.
  - destruct IH as (E & M & I & B & C & L).
    set (s := Nat.iter (S n) Chat.send sc) in *.
    assert (Hp : Chat.project_id s = Chat.project_id sc).
    { subst s. clear. induction (S n) as [|k IHk]; [reflexivity|].
      cbn [Nat.iter nat_rect]. fold (Nat.iter k Chat.send sc).
      rewrite <- IHk. unfold Chat.send at 1.
      destruct (Chat.trim _); [reflexivity|].
      destruct (Channel.sendMessage _ _) as [ch []]; reflexivity. }
    change (Nat.iter (S (S n)) Chat.send sc) with (Chat.send s).
    assert (Hb' : forallb is_space (Chat.message s) = false) by congruence.
    destruct (Hone s C Hb') as (E' & M' & I' & B' & C' & P' & L').
    repeat split; try congruence.
    intros H. apply L'. congruence.
Qed.

Lemma send_unconnected_never_emits_witness :
  let sc := {| Chat.channel := Channel.initial;
               Chat.messages := [];
               Chat.message := u "hello";
               Chat.socketError := false;
               Chat.project_id := u "p1";
               Chat.user_id := JStr (u "u1") |} in
  Channel.emitted (Chat.channel (Nat.iter 3 Chat.send sc)) = [].
Proof.
  intros sc.
  exact (proj1 (send_unconnected_never_emits sc 2 eq_refl eq_refl)).
Defined.
